(** * XSalsa20-Poly1305 secretbox: a shallow embedding of
      [cbits/xsalsa20poly1305/xsalsa20poly1305.c]

    Conventions of the embedding.

    - An [unsigned char] is a [Z] in [[0, 256)]; a [uint32] is a [Z] in
      [[0, 2^32)].  Every conversion that narrows a value is written out
      ([uchar], [uint32]).
    - A buffer is a [list Z].  A [const unsigned char *] argument is the list
      of the bytes found at the pointer, so [p + 16] is [drop 16 p].  An output
      pointer that the source displaces ([out + 4], [c += 64], [c + 16]) is a
      buffer together with an offset; writing is stdpp's list insert, reading
      is [!!!].  Reads and writes outside the buffer are undefined in C; here
      a write is dropped and a read yields [0], and the theorems state the
      sizes they need.
    - A length ([unsigned long long]) is a [nat]: the source only compares
      lengths and subtracts under a guard ([clen -= 64] when [clen >= 64],
      [mlen - 32] when [mlen >= 32]), so no wrap-around can occur.
    - The calls that matter to the claims are logged: every function runs in
      the writer monad [M] over [event].
    - The input and output buffers of one call do not overlap. *)

From Stdlib Require Import ZArith Lia String.
From stdpp Require Import list.

Local Open Scope Z_scope.

(** ** Machine integers *)

Definition uchar (z : Z) : Z := z mod 256.
Definition uint32 (z : Z) : Z := z mod 2 ^ 32.

Definition is_uchar (z : Z) : Prop := 0 <= z < 256.

(** ** The event log *)

Inductive event : Type :=
| Core_hsalsa20 (inp k c : list Z)
| Core_salsa20 (inp k c : list Z)
| Poly1305_auth (m key : list Z)
| Poly1305_auth_verify (mac m key : list Z)
| Scope_exit (fn : string) (subkey : list Z).

Record M (A : Type) : Type := Run { value : A; trace : list event }.
Arguments Run {A} _ _.
Arguments value {A} _.
Arguments trace {A} _.

#[global] Instance M_ret : MRet M := fun A a => Run a [].

#[global] Instance M_bind : MBind M := fun A B f m =>
  let r := f (value m) in Run (value r) (trace m ++ trace r).

Definition emit (e : event) : M unit := Run tt [e].

(** [for (i = lo; i < hi; ++i) body] over a loop state [s]. *)
Definition for_range {S : Type} (lo hi : nat) (body : nat -> S -> S) (s : S) : S :=
  fold_left (fun s i => body i s) (seq lo (hi - lo)) s.

(** ** Lines 7-34: constants and helpers *)

(** [sigma] is the byte string "expand 32-byte k". *)
Definition sigma : list Z :=
  [101; 120; 112; 97; 110; 100; 32; 51; 50; 45; 98; 121; 116; 101; 32; 107].

Definition ROUNDS : Z := 20.

Definition rotate (u c : Z) : Z :=
  Z.lor (uint32 (Z.shiftl u c)) (Z.shiftr u (32 - c)).

Definition load_littleendian (x : list Z) : Z :=
  Z.lor (Z.lor (Z.lor (x !!! 0%nat)
                      (uint32 (Z.shiftl (x !!! 1%nat) 8)))
               (uint32 (Z.shiftl (x !!! 2%nat) 16)))
        (uint32 (Z.shiftl (x !!! 3%nat) 24)).

Definition store_littleendian (x : list Z) (off : nat) (u : Z) : list Z :=
  let x := <[off := uchar u]> x in
  let u := Z.shiftr u 8 in
  let x := <[(off + 1)%nat := uchar u]> x in
  let u := Z.shiftr u 8 in
  let x := <[(off + 2)%nat := uchar u]> x in
  let u := Z.shiftr u 8 in
  <[(off + 3)%nat := uchar u]> x.

(** ** The round network

    One line [xt ^= rotate(xa + xb, c)] of the loop body is a [quarter];
    the sixteen variables [x0 .. x15] are a list indexed by their number. *)

Record quarter : Type := Q { target : nat; left : nat; right : nat; amount : Z }.
Arguments Q (_ _ _)%_nat _%_Z.

Definition update (x : list Z) (q : quarter) : list Z :=
  <[target q := Z.lxor (x !!! target q)
                       (rotate (uint32 (x !!! left q + x !!! right q)) (amount q))]> x.

(** Lines 64-95, the loop body of [crypto_core_hsalsa20]. *)
Definition hsalsa20_body : list quarter :=
  [ Q  4  0 12  7;  Q  8  4  0  9;  Q 12  8  4 13;  Q  0 12  8 18;
    Q  9  5  1  7;  Q 13  9  5  9;  Q  1 13  9 13;  Q  5  1 13 18;
    Q 14 10  6  7;  Q  2 14 10  9;  Q  6  2 14 13;  Q 10  6  2 18;
    Q  3 15 11  7;  Q  7  3 15  9;  Q 11  7  3 13;  Q 15 11  7 18;
    Q  1  0  3  7;  Q  2  1  0  9;  Q  3  2  1 13;  Q  0  3  2 18;
    Q  6  5  4  7;  Q  7  6  5  9;  Q  4  7  6 13;  Q  5  4  7 18;
    Q 11 10  9  7;  Q  8 11 10  9;  Q  9  8 11 13;  Q 10  9  8 18;
    Q 12 15 14  7;  Q 13 12 15  9;  Q 14 13 12 13;  Q 15 14 13 18 ].

(** Lines 140-171, the loop body of [crypto_core_salsa20]. *)
Definition salsa20_body : list quarter :=
  [ Q  4  0 12  7;  Q  8  4  0  9;  Q 12  8  4 13;  Q  0 12  8 18;
    Q  9  5  1  7;  Q 13  9  5  9;  Q  1 13  9 13;  Q  5  1 13 18;
    Q 14 10  6  7;  Q  2 14 10  9;  Q  6  2 14 13;  Q 10  6  2 18;
    Q  3 15 11  7;  Q  7  3 15  9;  Q 11  7  3 13;  Q 15 11  7 18;
    Q  1  0  3  7;  Q  2  1  0  9;  Q  3  2  1 13;  Q  0  3  2 18;
    Q  6  5  4  7;  Q  7  6  5  9;  Q  4  7  6 13;  Q  5  4  7 18;
    Q 11 10  9  7;  Q  8 11 10  9;  Q  9  8 11 13;  Q 10  9  8 18;
    Q 12 15 14  7;  Q 13 12 15  9;  Q 14 13 12 13;  Q 15 14 13 18 ].

(** [for (i = ROUNDS; i > 0; i -= 2) body]; at most [fuel] iterations. *)
Fixpoint rounds_loop (fuel : nat) (body : list quarter) (i : Z) (x : list Z) : list Z :=
  match fuel with
  | O => x
  | S fuel' =>
      if 0 <? i then rounds_loop fuel' body (i - 2) (fold_left update body x) else x
  end.

(** The words [x0 .. x15] (and [j0 .. j15]) as loaded on lines 46-61 and
    122-137. *)
Definition load_state (inp k c : list Z) : list Z :=
  [ load_littleendian (drop 0 c);
    load_littleendian (drop 0 k);
    load_littleendian (drop 4 k);
    load_littleendian (drop 8 k);
    load_littleendian (drop 12 k);
    load_littleendian (drop 4 c);
    load_littleendian (drop 0 inp);
    load_littleendian (drop 4 inp);
    load_littleendian (drop 8 inp);
    load_littleendian (drop 12 inp);
    load_littleendian (drop 8 c);
    load_littleendian (drop 16 k);
    load_littleendian (drop 20 k);
    load_littleendian (drop 24 k);
    load_littleendian (drop 28 k);
    load_littleendian (drop 12 c) ].

(** ** Lines 36-108: [crypto_core_hsalsa20] *)

Definition crypto_core_hsalsa20 (out : list Z) (inp k c : list Z) : M (Z * list Z) :=
  emit (Core_hsalsa20 inp k c) ;;
  let x := load_state inp k c in
  let x := rounds_loop (Z.to_nat ROUNDS) hsalsa20_body ROUNDS x in
  let out := store_littleendian out 0 (x !!! 0%nat) in
  let out := store_littleendian out 4 (x !!! 5%nat) in
  let out := store_littleendian out 8 (x !!! 10%nat) in
  let out := store_littleendian out 12 (x !!! 15%nat) in
  let out := store_littleendian out 16 (x !!! 6%nat) in
  let out := store_littleendian out 20 (x !!! 7%nat) in
  let out := store_littleendian out 24 (x !!! 8%nat) in
  let out := store_littleendian out 28 (x !!! 9%nat) in
  mret (0, out).

(** ** Lines 111-209: [crypto_core_salsa20]

    [o] is the displacement of the pointer [out] in the buffer it points
    into. *)

(** Lines 174-189: [xi += ji]. *)
Definition feedback (x j : list Z) : list Z :=
  for_range 0 16 (fun i x => <[i := uint32 (x !!! i + j !!! i)]> x) x.

Definition crypto_core_salsa20 (out : list Z) (o : nat) (inp k c : list Z)
  : M (Z * list Z) :=
  emit (Core_salsa20 inp k c) ;;
  let j := load_state inp k c in
  let x := j in
  let x := rounds_loop (Z.to_nat ROUNDS) salsa20_body ROUNDS x in
  let x := feedback x j in
  let out := store_littleendian out (o + 0) (x !!! 0%nat) in
  let out := store_littleendian out (o + 4) (x !!! 1%nat) in
  let out := store_littleendian out (o + 8) (x !!! 2%nat) in
  let out := store_littleendian out (o + 12) (x !!! 3%nat) in
  let out := store_littleendian out (o + 16) (x !!! 4%nat) in
  let out := store_littleendian out (o + 20) (x !!! 5%nat) in
  let out := store_littleendian out (o + 24) (x !!! 6%nat) in
  let out := store_littleendian out (o + 28) (x !!! 7%nat) in
  let out := store_littleendian out (o + 32) (x !!! 8%nat) in
  let out := store_littleendian out (o + 36) (x !!! 9%nat) in
  let out := store_littleendian out (o + 40) (x !!! 10%nat) in
  let out := store_littleendian out (o + 44) (x !!! 11%nat) in
  let out := store_littleendian out (o + 48) (x !!! 12%nat) in
  let out := store_littleendian out (o + 52) (x !!! 13%nat) in
  let out := store_littleendian out (o + 56) (x !!! 14%nat) in
  let out := store_littleendian out (o + 60) (x !!! 15%nat) in
  mret (0, out).

(** ** Lines 211-286: the Salsa20 stream *)

(** Lines 224-225 and 262-263: the block input, nonce then counter.  The
    array [in] is uninitialised before these loops write all of it. *)
Definition init_block_input (n : list Z) : list Z :=
  let inp := replicate 16 0 in
  let inp := for_range 0 8 (fun i inp => <[i := n !!! i]> inp) inp in
  for_range 8 16 (fun i inp => <[i := 0]> inp) inp.

(** Lines 230-235 and 269-274: the counter bytes [in[8..16)] plus one. *)
Definition increment_counter (inp : list Z) : list Z :=
  let u := 1 in
  snd (for_range 8 16
         (fun i '(u, inp) =>
            let u := uint32 (u + inp !!! i) in
            let inp := <[i := uchar u]> inp in
            let u := Z.shiftr u 8 in
            (u, inp))
         (u, inp)).

(** Lines 227-239: [while (clen >= 64)].  The state is the buffer [c], the
    displacement [co] of the pointer [c], the remaining length and [in]. *)
Fixpoint stream_loop (fuel : nat) (c : list Z) (co clen : nat) (inp k : list Z)
  : M (list Z * nat * nat * list Z) :=
  match fuel with
  | O => mret (c, co, clen, inp)
  | S fuel' =>
      if (64 <=? clen)%nat then
        '(_, c) ← crypto_core_salsa20 c co inp k sigma;
        let inp := increment_counter inp in
        stream_loop fuel' c (co + 64) (clen - 64) inp k
      else mret (c, co, clen, inp)
  end.

Definition crypto_stream_salsa20 (c : list Z) (clen : nat) (n k : list Z)
  : M (Z * list Z) :=
  if (clen =? 0)%nat then mret (0, c) else
  let inp := init_block_input n in
  '(c, co, clen, inp) ← stream_loop clen c 0 clen inp k;
  if (clen =? 0)%nat then mret (0, c) else
  '(_, block) ← crypto_core_salsa20 (replicate 64 0) 0 inp k sigma;
  let c := for_range 0 clen (fun i c => <[(co + i)%nat := block !!! i]> c) c in
  mret (0, c).

(** Lines 265-279: [while (mlen >= 64)], with the message pointer [m]
    advanced by [drop]. *)
Fixpoint stream_xor_loop (fuel : nat) (c : list Z) (co : nat) (m : list Z)
    (mlen : nat) (inp k : list Z) : M (list Z * nat * list Z * nat * list Z) :=
  match fuel with
  | O => mret (c, co, m, mlen, inp)
  | S fuel' =>
      if (64 <=? mlen)%nat then
        '(_, block) ← crypto_core_salsa20 (replicate 64 0) 0 inp k sigma;
        let c := for_range 0 64
                   (fun i c => <[(co + i)%nat := uchar (Z.lxor (m !!! i) (block !!! i))]> c) c in
        let inp := increment_counter inp in
        stream_xor_loop fuel' c (co + 64) (drop 64 m) (mlen - 64) inp k
      else mret (c, co, m, mlen, inp)
  end.

Definition crypto_stream_salsa20_xor (c m : list Z) (mlen : nat) (n k : list Z)
  : M (Z * list Z) :=
  if (mlen =? 0)%nat then mret (0, c) else
  let inp := init_block_input n in
  '(c, co, m, mlen, inp) ← stream_xor_loop mlen c 0 m mlen inp k;
  if (mlen =? 0)%nat then mret (0, c) else
  '(_, block) ← crypto_core_salsa20 (replicate 64 0) 0 inp k sigma;
  let c := for_range 0 mlen
             (fun i c => <[(co + i)%nat := uchar (Z.lxor (m !!! i) (block !!! i))]> c) c in
  mret (0, c).

(** ** Lines 288-309: XSalsa20

    The local [subkey] is written by [crypto_core_hsalsa20] and is not
    written again; [Scope_exit] records what it holds when the function
    returns. *)

Definition xsalsa20_stream_xor (c m : list Z) (mlen : nat) (n k : list Z)
  : M (Z * list Z) :=
  let subkey := replicate 32 0 in
  '(_, subkey) ← crypto_core_hsalsa20 subkey n k sigma;
  r ← crypto_stream_salsa20_xor c m mlen (drop 16 n) subkey;
  emit (Scope_exit "xsalsa20_stream_xor" subkey) ;;
  mret r.

Definition xsalsa20_stream (c : list Z) (clen : nat) (n k : list Z)
  : M (Z * list Z) :=
  let subkey := replicate 32 0 in
  '(_, subkey) ← crypto_core_hsalsa20 subkey n k sigma;
  r ← crypto_stream_salsa20 c clen (drop 16 n) subkey;
  emit (Scope_exit "xsalsa20_stream" subkey) ;;
  mret r.

(** ** Lines 311-347: secretbox

    [poly1305-donna.c] is included by the source and is not part of it: the
    two functions it provides are parameters.  [poly1305_auth m key] is the
    16-byte tag that [poly1305_auth(mac, m, inlen, key)] writes to [mac];
    [poly1305_auth_verify mac m key] is the [int] that
    [poly1305_auth_verify(mac, m, inlen, key)] returns.  On line 324 the tag
    is written over bytes 16 to 31 of the key it was computed with; the tag
    is a function of the message and of the key as they are when the call
    is made. *)

Section Secretbox.

Variable poly1305_auth : list Z -> list Z -> list Z.
Variable poly1305_auth_verify : list Z -> list Z -> list Z -> Z.

(** [poly1305_auth(c + o, m, inlen, key)]: sixteen bytes written at [c + o]. *)
Definition call_poly1305_auth (c : list Z) (o : nat) (m key : list Z) : M (list Z) :=
  emit (Poly1305_auth m key) ;;
  let mac := poly1305_auth m key in
  mret (for_range 0 16 (fun i c => <[(o + i)%nat := mac !!! i]> c) c).

Definition call_poly1305_auth_verify (mac m key : list Z) : M Z :=
  emit (Poly1305_auth_verify mac m key) ;;
  mret (poly1305_auth_verify mac m key).

Definition xsalsa20poly1305_secretbox (c m : list Z) (mlen : nat) (n k : list Z)
  : M (Z * list Z) :=
  if (mlen <? 32)%nat then mret (-1, c) else
  '(_, c) ← xsalsa20_stream_xor c m mlen n k;
  c ← call_poly1305_auth c 16 (take (mlen - 32) (drop 32 c)) (take 32 c);
  let c := for_range 0 16 (fun i c => <[i := 0]> c) c in
  mret (0, c).

Definition xsalsa20poly1305_secretbox_open (m c : list Z) (clen : nat) (n k : list Z)
  : M (Z * list Z) :=
  if (clen <? 32)%nat then mret (-1, m) else
  let subkey := replicate 32 0 in
  '(_, subkey) ← xsalsa20_stream subkey 32 n k;
  v ← call_poly1305_auth_verify (take 16 (drop 16 c))
         (take (clen - 32) (drop 32 c)) subkey;
  if negb (v =? 0) then
    emit (Scope_exit "xsalsa20poly1305_secretbox_open" subkey) ;;
    mret (-1, m)
  else
  '(_, m) ← xsalsa20_stream_xor m c clen n k;
  let m := for_range 0 32 (fun i m => <[i := 0]> m) m in
  emit (Scope_exit "xsalsa20poly1305_secretbox_open" subkey) ;;
  mret (0, m).

End Secretbox.

(** ** Shifts that C defines

    On a 32-bit [unsigned int], [u << c] and [u >> c] are defined for
    [0 <= c < 32] only.  [rotate_checked] is [rotate] with both shifts
    checked, and [body_checked] runs one loop body with it. *)

Definition shift_defined (c : Z) : bool := (0 <=? c) && (c <? 32).

Definition rotate_checked (u c : Z) : option Z :=
  if shift_defined c && shift_defined (32 - c) then Some (rotate u c) else None.

Definition update_checked (x : list Z) (q : quarter) : option (list Z) :=
  r ← rotate_checked (uint32 (x !!! left q + x !!! right q)) (amount q);
  Some (<[target q := Z.lxor (x !!! target q) r]> x).

Definition body_checked (body : list quarter) (x : list Z) : option (list Z) :=
  fold_left (fun ox q => x ← ox; update_checked x q) body (Some x).

(** ** What the functions compute, in the words of the specification *)

(** The [n] little-endian bytes of [u]. *)
Fixpoint le_bytes (n : nat) (u : Z) : list Z :=
  match n with
  | O => []
  | S n' => u mod 256 :: le_bytes n' (u / 256)
  end.

(** Ten double rounds. *)
Definition double_rounds (body : list quarter) (x : list Z) : list Z :=
  Nat.iter 10 (fun x => fold_left update body x) x.

(** The sixteen words of the constant, the key and the input, in the order
    constant, key, constant, input, constant, key, constant. *)
Definition word_at (b : list Z) (i : nat) : Z := load_littleendian (drop (4 * i) b).

Definition loaded_words (inp k c : list Z) : list Z :=
  [ word_at c 0; word_at k 0; word_at k 1; word_at k 2;
    word_at k 3; word_at c 1; word_at inp 0; word_at inp 1;
    word_at inp 2; word_at inp 3; word_at c 2; word_at k 4;
    word_at k 5; word_at k 6; word_at k 7; word_at c 3 ]%nat.

(** HSalsa20: the words after the rounds, no feedback. *)
Definition hsalsa20_words (inp k c : list Z) : list Z :=
  double_rounds hsalsa20_body (loaded_words inp k c).

Definition hsalsa20_positions : list nat := [0; 5; 10; 15; 6; 7; 8; 9]%nat.

Definition hsalsa20_bytes (inp k c : list Z) : list Z :=
  mjoin (le_bytes 4 <$> ((fun i => hsalsa20_words inp k c !!! i) <$> hsalsa20_positions)).

(** Salsa20: the words after the rounds plus the loaded words. *)
Definition salsa20_words (inp k c : list Z) : list Z :=
  zip_with (fun x j => (x + j) mod 2 ^ 32)
    (double_rounds salsa20_body (loaded_words inp k c)) (loaded_words inp k c).

Definition salsa20_block (inp k c : list Z) : list Z :=
  mjoin (le_bytes 4 <$> salsa20_words inp k c).

(** The block input: eight nonce bytes, then the counter as eight
    little-endian bytes. *)
Definition block_input (n : list Z) (counter : Z) : list Z :=
  take 8 n ++ le_bytes 8 counter.

(** The first [blocks] keystream blocks, with the counter running from 0. *)
Definition salsa20_keystream (n k : list Z) (blocks : nat) : list Z :=
  mjoin ((fun j => salsa20_block (block_input n (Z.of_nat j)) k sigma) <$> seq 0 blocks).

(** Number of permutation calls for [len] bytes of output. *)
Definition blocks_for (len : nat) : nat := ((len + 63) / 64)%nat.

Definition xsalsa20_keystream (n k : list Z) (blocks : nat) : list Z :=
  salsa20_keystream (drop 16 n) (hsalsa20_bytes n k sigma) blocks.

(** Whether a buffer has been cleared. *)
Definition zeroed (buf : list Z) : Prop := Forall (fun b => b = 0) buf.

(** ** Test data

    A stand-in for the two Poly1305 functions, total and computable, and the
    key and nonce of the NaCl test suite. *)

Module Sample.

Definition auth (m key : list Z) : list Z :=
  (fun i => uchar (key !!! i + foldr Z.add 0 m + Z.of_nat (length m))) <$> seq 0 16.

Definition auth_verify (mac m key : list Z) : Z :=
  if decide (mac = auth m key) then 0 else -1.

Definition key : list Z :=
  [ 27;  39;  85; 100; 115; 233; 133; 212;  98; 205;  81;  25; 122; 154;  70; 199;
    96;   9;  84; 158; 172; 100; 116; 242;   6; 196; 238;   8;  68; 246; 131; 137].

Definition nonce : list Z :=
  [105; 105; 110; 233;  85; 182;  43; 115; 205;  98; 189; 168;
   117; 252; 115; 214; 130;  25; 224;   3; 107; 122;  11;  55].

(** 32 zero bytes, then 40 bytes of text. *)
Definition message : list Z := replicate 32 0 ++ ((fun i => Z.of_nat (3 * i + 65)) <$> seq 0 40).

Definition seal (m : list Z) : M (Z * list Z) :=
  xsalsa20poly1305_secretbox auth (replicate (length m) 0) m (length m) nonce key.

Definition open (c : list Z) : M (Z * list Z) :=
  xsalsa20poly1305_secretbox_open auth_verify (replicate (length c) 255) c (length c) nonce key.

End Sample.

(** ** Auxiliary functions for the proofs *)

(** Consecutive stores, as on lines 98-105 and 191-206. *)
Fixpoint store_words (out : list Z) (o d : nat) (ws : list Z) : list Z :=
  match ws with
  | [] => out
  | w :: ws' => store_words (store_littleendian out (o + d) w) o (d + 4) ws'
  end.

(** The carry chain of lines 230-235 on the counter bytes alone. *)
Fixpoint carry_bytes (u : Z) (l : list Z) : list Z :=
  match l with
  | [] => []
  | b :: l' => let u := uint32 (u + b) in uchar u :: carry_bytes (Z.shiftr u 8) l'
  end.

(** [g counter; g (counter + 1); ...], [blocks] values. *)
Definition iterate_from {A : Type} (g : Z -> A) (counter : Z) (blocks : nat) : list A :=
  (fun j => g (counter + Z.of_nat j)) <$> seq 0 blocks.

(** [blocks] keystream blocks, the counter running from [counter]. *)
Definition keystream_from (n k : list Z) (counter : Z) (blocks : nat) : list Z :=
  mjoin (iterate_from (fun z => salsa20_block (block_input n z) k sigma) counter blocks).

(** The permutation calls that produce them. *)
Definition core_calls (n k : list Z) (counter : Z) (blocks : nat) : list event :=
  iterate_from (fun z => Core_salsa20 (block_input n z) k sigma) counter blocks.

(** Bytewise [a ^ b], stored into an [unsigned char]. *)
Definition xor_bytes (a b : list Z) : list Z :=
  zip_with (fun x y => uchar (Z.lxor x y)) a b.

(** The buffer [c] after [xsalsa20_stream_xor(c, m, mlen, n, k)]. *)
Definition xsalsa20_xor_buffer (c m : list Z) (mlen : nat) (n k : list Z) : list Z :=
  xor_bytes (take mlen m) (take mlen (xsalsa20_keystream n k (blocks_for mlen)))
  ++ drop mlen c.

(** The log of one XSalsa20 call [fn] for [len] bytes. *)
Definition xsalsa20_trace (fn : string) (n k : list Z) (len : nat) : list event :=
  Core_hsalsa20 n k sigma
  :: core_calls (drop 16 n) (hsalsa20_bytes n k sigma) 0 (blocks_for len)
  ++ [Scope_exit fn (hsalsa20_bytes n k sigma)].

(** The first 32 bytes of the XSalsa20 keystream, the one-time MAC key. *)
Definition mac_key (n k : list Z) : list Z := take 32 (xsalsa20_keystream n k 1).

(** Every buffer that leaves scope in a log has been cleared. *)
Definition cleared_on_exit (t : list event) : Prop :=
  forall (fn : string) (buf : list Z), In (Scope_exit fn buf) t -> zeroed buf.

(** A value that fits an [unsigned int]. *)
Definition is_uint32 (z : Z) : Prop := 0 <= z < 2 ^ 32.

(** The loop of lines 63 and 139 run backwards: the lines of the body in
    reverse order, ten times. *)
Definition inverse_rounds (body : list quarter) (x : list Z) : list Z :=
  Nat.iter 10 (fun x => fold_left update (rev body) x) x.

(** A line of the loop body whose target is not one of its two operands. *)
Definition target_apart (q : quarter) : Prop :=
  target q <> left q /\ target q <> right q.

Ltac explode l H :=
  repeat (destruct l as [|? l]; [discriminate H|]);
  destruct l; [clear H | discriminate H].

(** * Properties *)

(** ** The monad *)

Lemma value_bind {A B : Type} (m : M A) (f : A -> M B) :
  value (m ≫= f) = value (f (value m)).
Proof. reflexivity. Qed.

Lemma trace_bind {A B : Type} (m : M A) (f : A -> M B) :
  trace (m ≫= f) = trace m ++ trace (f (value m)).
Proof. reflexivity. Qed.

Lemma M_eq {A : Type} (m : M A) (a : A) (t : list event) :
  value m = a -> trace m = t -> m = Run a t.
Proof. destruct m; simpl; congruence. Qed.

(** ** Buffers *)

Lemma for_range_0 {S : Type} (n : nat) (body : nat -> S -> S) (s : S) :
  for_range 0 (Datatypes.S n) body s = body n (for_range 0 n body s).
Proof.
  unfold for_range. rewrite !Nat.sub_0_r, seq_S, fold_left_app. reflexivity.
Qed.

(** A loop that writes [f i] at [o + i] for [i < n] overwrites the bytes
    [o .. o + n) and nothing else. *)
Lemma for_range_write (f : nat -> Z) (o n : nat) (c : list Z) :
  (o + n <= length c)%nat ->
  for_range 0 n (fun i c => <[(o + i)%nat := f i]> c) c
  = take o c ++ (f <$> seq 0 n) ++ drop (o + n) c.
Proof.
  induction n as [|n IH]; intros Hlen.
  - unfold for_range. simpl. rewrite Nat.add_0_r, take_drop. reflexivity.
  - rewrite for_range_0, IH by lia.
    rewrite seq_S, fmap_app. simpl.
    destruct (drop (o + n) c) as [|b rest] eqn:E.
    { apply (f_equal length) in E. rewrite length_drop in E. simpl in E. lia. }
    replace (o + S n)%nat with (o + n + 1)%nat by lia.
    rewrite <- drop_drop, E. simpl.
    rewrite !app_assoc.
    rewrite insert_app_r_alt;
      rewrite length_app, length_take, length_fmap, length_seq; [|lia].
    replace (o + n - (o `min` length c + n))%nat with 0%nat by lia.
    simpl. rewrite <- !app_assoc. reflexivity.
Qed.

Lemma length_for_range_write (f : nat -> list Z -> Z) (o n : nat) (c : list Z) :
  length (for_range 0 n (fun i c => <[(o + i)%nat := f i c]> c) c) = length c.
Proof.
  induction n as [|n IH]; [reflexivity|].
  rewrite for_range_0, length_insert. exact IH.
Qed.

Lemma length_le_bytes (n : nat) (u : Z) : length (le_bytes n u) = n.
Proof. revert u; induction n; simpl; intros; [reflexivity | f_equal; auto]. Qed.

Lemma le_bytes_uchar (n : nat) (u : Z) : Forall is_uchar (le_bytes n u).
Proof.
  revert u; induction n; simpl; intros; constructor; [|auto].
  unfold is_uchar. apply Z.mod_pos_bound. lia.
Qed.

(** [store_littleendian] writes the four little-endian bytes of [u]. *)
Lemma store_littleendian_bytes (x : list Z) (off : nat) (u : Z) :
  (off + 4 <= length x)%nat ->
  store_littleendian x off u = take off x ++ le_bytes 4 u ++ drop (off + 4) x.
Proof.
  intros Hlen.
  transitivity (for_range 0 4 (fun i c => <[(off + i)%nat := le_bytes 4 u !!! i]> c) x).
  - unfold store_littleendian, for_range. simpl.
    rewrite Nat.add_0_r, !Z.shiftr_div_pow2 by lia.
    unfold uchar. change (2 ^ 8) with 256. reflexivity.
  - rewrite for_range_write by lia. reflexivity.
Qed.

Lemma join_cons {A : Type} (l : list A) (ls : list (list A)) :
  mjoin (l :: ls) = l ++ mjoin ls.
Proof. reflexivity. Qed.

Lemma length_store_littleendian (x : list Z) (off : nat) (u : Z) :
  length (store_littleendian x off u) = length x.
Proof. unfold store_littleendian. rewrite !length_insert. reflexivity. Qed.

Lemma store_words_bytes (ws : list Z) : forall (out : list Z) (o d : nat),
  (o + d + 4 * length ws <= length out)%nat ->
  store_words out o d ws
  = take (o + d) out ++ mjoin (le_bytes 4 <$> ws) ++ drop (o + d + 4 * length ws) out.
Proof.
  induction ws as [|w ws IH]; intros out o d Hlen.
  - simpl. rewrite Nat.add_0_r, take_drop. reflexivity.
  - simpl in Hlen. cbn [store_words].
    rewrite IH by (rewrite length_store_littleendian; lia).
    rewrite store_littleendian_bytes by lia.
    assert (Hpre : length (take (o + d) out ++ le_bytes 4 w) = (o + (d + 4))%nat)
      by (rewrite length_app, length_take, length_le_bytes; lia).
    rewrite (app_assoc (take (o + d) out)).
    rewrite <- Hpre at 1. rewrite take_app_length.
    replace (o + (d + 4) + 4 * length ws)%nat
      with (length (take (o + d) out ++ le_bytes 4 w) + 4 * length ws)%nat
      by (rewrite Hpre; lia).
    rewrite drop_app_add, drop_drop.
    rewrite fmap_cons, join_cons.
    rewrite <- !app_assoc. do 2 f_equal. f_equal. f_equal. rewrite length_cons. lia.
Qed.

Lemma length_update (x : list Z) (q : quarter) : length (update x q) = length x.
Proof. apply length_insert. Qed.

Lemma length_body (body : list quarter) (x : list Z) :
  length (fold_left update body x) = length x.
Proof.
  revert x; induction body as [|q body IH]; intros x; simpl; [reflexivity|].
  rewrite IH. apply length_update.
Qed.

Lemma length_double_rounds (body : list quarter) (x : list Z) :
  length (double_rounds body x) = length x.
Proof.
  unfold double_rounds. generalize 10%nat as n.
  induction n as [|n IH]; simpl; [reflexivity|].
  rewrite length_body. exact IH.
Qed.

(** The loop of lines 63 and 139 runs its body ten times. *)
Lemma rounds_loop_double_rounds (body : list quarter) (x : list Z) :
  rounds_loop (Z.to_nat ROUNDS) body ROUNDS x = double_rounds body x.
Proof.
  unfold double_rounds.
  assert (Hloop : forall (n : nat) (fuel : nat) (y : list Z), (n <= fuel)%nat ->
            rounds_loop fuel body (2 * Z.of_nat n) y
            = Nat.iter n (fun x => fold_left update body x) y).
  { induction n as [|n IH]; intros fuel y Hf.
    - destruct fuel; reflexivity.
    - destruct fuel as [|fuel]; [lia|]. cbn [rounds_loop].
      replace (0 <? 2 * Z.of_nat (S n)) with true by (symmetry; apply Z.ltb_lt; lia).
      replace (2 * Z.of_nat (S n) - 2) with (2 * Z.of_nat n) by lia.
      rewrite IH by lia. rewrite <- !Nat.iter_succ_r. reflexivity. }
  apply (Hloop 10%nat (Z.to_nat ROUNDS)). unfold ROUNDS. lia.
Qed.

Lemma load_state_loaded_words (inp k c : list Z) :
  load_state inp k c = loaded_words inp k c.
Proof. reflexivity. Qed.

Lemma feedback_zip_with (x j : list Z) :
  length x = 16%nat -> length j = 16%nat ->
  feedback x j = zip_with (fun x j => (x + j) mod 2 ^ 32) x j.
Proof. intros Hx Hj. explode x Hx. explode j Hj. reflexivity. Qed.

Lemma length_salsa20_words (inp k c : list Z) : length (salsa20_words inp k c) = 16%nat.
Proof.
  unfold salsa20_words. rewrite length_zip_with, length_double_rounds. reflexivity.
Qed.

Lemma length_join_le_bytes (ws : list Z) :
  length (mjoin (le_bytes 4 <$> ws)) = (4 * length ws)%nat.
Proof.
  induction ws as [|w ws IH]; [reflexivity|].
  rewrite fmap_cons, join_cons. rewrite length_app, IH, length_le_bytes. simpl. lia.
Qed.

Lemma join_le_bytes_uchar (ws : list Z) : Forall is_uchar (mjoin (le_bytes 4 <$> ws)).
Proof.
  induction ws as [|w ws IH]; [constructor|].
  rewrite fmap_cons, join_cons. apply Forall_app. split; [apply le_bytes_uchar | exact IH].
Qed.

Lemma length_salsa20_block (inp k c : list Z) : length (salsa20_block inp k c) = 64%nat.
Proof. unfold salsa20_block. rewrite length_join_le_bytes, length_salsa20_words. reflexivity. Qed.

Lemma salsa20_block_uchar (inp k c : list Z) : Forall is_uchar (salsa20_block inp k c).
Proof. apply join_le_bytes_uchar. Qed.

Lemma length_hsalsa20_bytes (inp k c : list Z) : length (hsalsa20_bytes inp k c) = 32%nat.
Proof. unfold hsalsa20_bytes. rewrite length_join_le_bytes. reflexivity. Qed.

Lemma trace_crypto_core_salsa20 (out : list Z) (o : nat) (inp k c : list Z) :
  trace (crypto_core_salsa20 out o inp k c) = [Core_salsa20 inp k c].
Proof. reflexivity. Qed.

Lemma value_crypto_core_salsa20 (out : list Z) (o : nat) (inp k c : list Z) :
  value (crypto_core_salsa20 out o inp k c)
  = (0, store_words out o 0
          ((fun i => feedback (rounds_loop (Z.to_nat ROUNDS) salsa20_body ROUNDS
                                 (load_state inp k c)) (load_state inp k c) !!! i)
             <$> seq 0 16)).
Proof. reflexivity. Qed.

Lemma lookups_all (n : nat) (x : list Z) :
  length x = n -> (fun i => x !!! i) <$> seq 0 n = x.
Proof.
  intros Hx. apply list_eq. intros i.
  rewrite list_lookup_fmap.
  destruct (decide (i < n)%nat) as [Hi|Hi].
  - rewrite lookup_seq_lt by lia. simpl.
    destruct (lookup_lt_is_Some_2 x i ltac:(lia)) as [y Hy].
    rewrite Hy. f_equal. apply list_lookup_total_correct. exact Hy.
  - rewrite lookup_seq_ge by lia. rewrite lookup_ge_None_2 by lia. reflexivity.
Qed.

Lemma feedback_salsa20_words (inp k c : list Z) :
  feedback (rounds_loop (Z.to_nat ROUNDS) salsa20_body ROUNDS (load_state inp k c))
           (load_state inp k c)
  = salsa20_words inp k c.
Proof.
  rewrite rounds_loop_double_rounds, load_state_loaded_words.
  apply feedback_zip_with; [|reflexivity].
  rewrite length_double_rounds. reflexivity.
Qed.

Lemma salsa20_block_words (inp k c : list Z) :
  salsa20_block inp k c = mjoin (le_bytes 4 <$> salsa20_words inp k c).
Proof. reflexivity. Qed.

Lemma hsalsa20_bytes_words (inp k c : list Z) :
  hsalsa20_bytes inp k c
  = le_bytes 4 (hsalsa20_words inp k c !!! 0%nat)
    ++ le_bytes 4 (hsalsa20_words inp k c !!! 5%nat)
    ++ le_bytes 4 (hsalsa20_words inp k c !!! 10%nat)
    ++ le_bytes 4 (hsalsa20_words inp k c !!! 15%nat)
    ++ le_bytes 4 (hsalsa20_words inp k c !!! 6%nat)
    ++ le_bytes 4 (hsalsa20_words inp k c !!! 7%nat)
    ++ le_bytes 4 (hsalsa20_words inp k c !!! 8%nat)
    ++ le_bytes 4 (hsalsa20_words inp k c !!! 9%nat).
Proof.
  unfold hsalsa20_bytes, hsalsa20_positions.
  rewrite !fmap_cons, !join_cons, app_nil_r. reflexivity.
Qed.

(** What one call of [crypto_core_salsa20] does. *)
Lemma crypto_core_salsa20_run (out : list Z) (o : nat) (inp k c : list Z) :
  (o + 64 <= length out)%nat ->
  crypto_core_salsa20 out o inp k c
  = Run (0, take o out ++ salsa20_block inp k c ++ drop (o + 64) out)
        [Core_salsa20 inp k c].
Proof.
  intros Hlen. apply M_eq; [|apply trace_crypto_core_salsa20].
  rewrite value_crypto_core_salsa20, feedback_salsa20_words.
  rewrite (lookups_all 16) by apply length_salsa20_words.
  rewrite store_words_bytes by (rewrite (length_salsa20_words inp k c); lia).
  rewrite (length_salsa20_words inp k c), Nat.add_0_r.
  unfold salsa20_block. reflexivity.
Qed.

Lemma trace_crypto_core_hsalsa20 (out inp k c : list Z) :
  trace (crypto_core_hsalsa20 out inp k c) = [Core_hsalsa20 inp k c].
Proof. reflexivity. Qed.

Lemma value_crypto_core_hsalsa20 (out inp k c : list Z) :
  value (crypto_core_hsalsa20 out inp k c)
  = (0, store_words out 0 0
          ((fun i => rounds_loop (Z.to_nat ROUNDS) hsalsa20_body ROUNDS
                       (load_state inp k c) !!! i) <$> hsalsa20_positions)).
Proof. reflexivity. Qed.

(** What one call of [crypto_core_hsalsa20] does. *)
Lemma crypto_core_hsalsa20_run (out inp k c : list Z) :
  (32 <= length out)%nat ->
  crypto_core_hsalsa20 out inp k c
  = Run (0, hsalsa20_bytes inp k c ++ drop 32 out) [Core_hsalsa20 inp k c].
Proof.
  intros Hlen. apply M_eq; [|apply trace_crypto_core_hsalsa20].
  rewrite value_crypto_core_hsalsa20.
  rewrite rounds_loop_double_rounds, load_state_loaded_words.
  rewrite store_words_bytes by (simpl; lia).
  unfold hsalsa20_bytes, hsalsa20_words. reflexivity.
Qed.

(** ** The block input and its counter *)

Lemma take_lookups (n : nat) (l : list Z) :
  (n <= length l)%nat -> (fun i => l !!! i) <$> seq 0 n = take n l.
Proof.
  intros Hn. rewrite <- (lookups_all n (take n l)) by (rewrite length_take; lia).
  apply list_fmap_ext. intros i j Hj.
  apply lookup_seq in Hj as [-> Hlt]. simpl.
  symmetry. apply lookup_total_take_lt. exact Hlt.
Qed.

Lemma init_block_input_0 (n : list Z) :
  (8 <= length n)%nat -> init_block_input n = block_input n 0.
Proof.
  intros Hn. unfold block_input. rewrite <- take_lookups by exact Hn. reflexivity.
Qed.

Lemma length_block_input (n : list Z) (z : Z) :
  (8 <= length n)%nat -> length (block_input n z) = 16%nat.
Proof.
  intros Hn. unfold block_input. rewrite length_app, length_take, length_le_bytes. lia.
Qed.

Lemma increment_counter_carry (n8 l8 : list Z) :
  length n8 = 8%nat -> length l8 = 8%nat ->
  increment_counter (n8 ++ l8) = n8 ++ carry_bytes 1 l8.
Proof. intros Hn Hl. explode n8 Hn. explode l8 Hl. reflexivity. Qed.

Lemma carry_bytes_le_bytes (n : nat) : forall (u z : Z),
  0 <= u <= 1 -> carry_bytes u (le_bytes n z) = le_bytes n (z + u).
Proof.
  induction n as [|n IH]; intros u z Hu; [reflexivity|].
  cbn [le_bytes carry_bytes].
  assert (Hb : 0 <= z mod 256 < 256) by (apply Z.mod_pos_bound; lia).
  unfold uint32. rewrite (Z.mod_small (u + z mod 256)) by lia.
  rewrite Z.shiftr_div_pow2 by lia. change (2 ^ 8) with 256.
  f_equal.
  - unfold uchar. rewrite Z.add_comm, Zplus_mod_idemp_l. reflexivity.
  - rewrite IH.
    + f_equal. Z.div_mod_to_equations. lia.
    + Z.div_mod_to_equations. lia.
Qed.

(** The counter is incremented by one, with carry across its eight bytes
    (and wraps at [2^64], as [le_bytes 8] does). *)
Lemma increment_counter_block_input (n : list Z) (z : Z) :
  (8 <= length n)%nat ->
  increment_counter (block_input n z) = block_input n (z + 1).
Proof.
  intros Hn. unfold block_input.
  rewrite increment_counter_carry.
  - rewrite carry_bytes_le_bytes by lia. reflexivity.
  - rewrite length_take. lia.
  - apply length_le_bytes.
Qed.

(** ** The keystream *)

#[local] Opaque salsa20_block hsalsa20_bytes crypto_core_salsa20 crypto_core_hsalsa20.

Lemma iterate_from_S {A : Type} (g : Z -> A) (z : Z) (q : nat) :
  iterate_from g z (S q) = g z :: iterate_from g (z + 1) q.
Proof.
  unfold iterate_from. rewrite <- cons_seq, fmap_cons, Z.add_0_r.
  f_equal. rewrite <- fmap_S_seq, <- list_fmap_compose.
  apply list_fmap_ext. intros i j _. simpl. f_equal. lia.
Qed.

Lemma iterate_from_0 {A : Type} (g : Z -> A) (q : nat) :
  iterate_from g 0 q = (fun j => g (Z.of_nat j)) <$> seq 0 q.
Proof. reflexivity. Qed.

Lemma keystream_from_S (n k : list Z) (z : Z) (q : nat) :
  keystream_from n k z (S q)
  = salsa20_block (block_input n z) k sigma ++ keystream_from n k (z + 1) q.
Proof. unfold keystream_from. rewrite iterate_from_S, join_cons. reflexivity. Qed.

Lemma core_calls_S (n k : list Z) (z : Z) (q : nat) :
  core_calls n k z (S q)
  = Core_salsa20 (block_input n z) k sigma :: core_calls n k (z + 1) q.
Proof. unfold core_calls. rewrite iterate_from_S. reflexivity. Qed.

Lemma length_keystream_from (n k : list Z) (z : Z) (q : nat) :
  length (keystream_from n k z q) = (64 * q)%nat.
Proof.
  revert z; induction q as [|q IH]; intros z; [reflexivity|].
  rewrite keystream_from_S, length_app, length_salsa20_block, IH. lia.
Qed.

Lemma keystream_from_uchar (n k : list Z) (z : Z) (q : nat) :
  Forall is_uchar (keystream_from n k z q).
Proof.
  revert z; induction q as [|q IH]; intros z; [constructor|].
  rewrite keystream_from_S. apply Forall_app. split; [apply salsa20_block_uchar | apply IH].
Qed.

Lemma salsa20_keystream_from (n k : list Z) (q : nat) :
  salsa20_keystream n k q = keystream_from n k 0 q.
Proof. unfold salsa20_keystream, keystream_from. rewrite iterate_from_0. reflexivity. Qed.

(** Overwriting [o .. o + length new) of a buffer, twice in a row. *)
Lemma take_written (c pre new : list Z) (o : nat) :
  length pre = o ->
  take (o + length new) (pre ++ new ++ c) = pre ++ new.
Proof.
  intros <-. rewrite app_assoc, <- length_app. apply take_app_length.
Qed.

Lemma drop_written (c pre new : list Z) (o d : nat) :
  length pre = o ->
  drop (o + length new + d) (pre ++ new ++ c) = drop d c.
Proof.
  intros <-. rewrite app_assoc, <- length_app. rewrite drop_app_add. reflexivity.
Qed.

(** The loop of lines 227-239: [clen / 64] blocks written, one permutation
    call each, the counter advanced by as much. *)
Lemma stream_loop_run (n k : list Z) (Hn : (8 <= length n)%nat) :
  forall (fuel : nat) (c : list Z) (co clen : nat) (z : Z),
  (clen / 64 <= fuel)%nat -> (co + clen <= length c)%nat ->
  stream_loop fuel c co clen (block_input n z) k
  = Run (take co c ++ keystream_from n k z (clen / 64)
           ++ drop (co + 64 * (clen / 64)) c,
         (co + 64 * (clen / 64))%nat, (clen mod 64)%nat,
         block_input n (z + Z.of_nat (clen / 64)))
        (core_calls n k z (clen / 64)).
Proof.
  induction fuel as [|fuel IH]; intros c co clen z Hfuel Hlen.
  - assert (Hq : (clen / 64 = 0)%nat) by lia. rewrite Hq.
    assert (Hsmall : (clen < 64)%nat) by (apply Nat.div_small_iff in Hq; lia).
    rewrite Nat.mod_small by exact Hsmall.
    cbn [stream_loop]. unfold keystream_from, core_calls. simpl.
    rewrite Nat.add_0_r, take_drop, Z.add_0_r. reflexivity.
  - cbn [stream_loop]. destruct (64 <=? clen)%nat eqn:Hge.
    + apply Nat.leb_le in Hge.
      assert (Hdiv : (clen / 64 = S ((clen - 64) / 64))%nat).
      { replace clen with ((clen - 64) + 1 * 64)%nat at 1 by lia.
        rewrite Nat.div_add by lia. lia. }
      assert (Hmod : (clen mod 64 = (clen - 64) mod 64)%nat).
      { replace clen with ((clen - 64) + 1 * 64)%nat at 1 by lia.
        rewrite Nat.Div0.mod_add. reflexivity. }
      rewrite crypto_core_salsa20_run by lia.
      apply M_eq.
      * rewrite value_bind. cbn [value].
        rewrite increment_counter_block_input by exact Hn.
        rewrite IH; [|lia| rewrite !length_app, length_take, length_salsa20_block, length_drop; lia].
        cbn [value]. rewrite Hdiv, Hmod, keystream_from_S.
        generalize ((clen - 64) / 64)%nat as q. intros q.
        assert (Hblk : length (salsa20_block (block_input n z) k sigma) = 64%nat)
          by apply length_salsa20_block.
        revert Hblk. generalize (salsa20_block (block_input n z) k sigma) as blk.
        intros blk Hblk.
        generalize (keystream_from n k (z + 1) q) as ks. intros ks.
        assert (Hpre : length (take co c) = co) by (rewrite length_take; lia).
        replace (z + 1 + Z.of_nat q) with (z + Z.of_nat (S q)) by lia.
        replace (co + 64 + 64 * q)%nat with (co + 64 * S q)%nat by lia.
        do 3 f_equal.
        rewrite <- Hblk at 1. rewrite take_written by exact Hpre.
        replace (co + 64 * S q)%nat with (co + length blk + 64 * q)%nat by lia.
        rewrite drop_written by exact Hpre.
        rewrite drop_drop, <- !app_assoc. do 4 f_equal. lia.
      * rewrite trace_bind. cbn [value trace].
        rewrite increment_counter_block_input by exact Hn.
        rewrite IH; [|lia| rewrite !length_app, length_take, length_salsa20_block, length_drop; lia].
        cbn [trace]. rewrite Hdiv, core_calls_S. reflexivity.
    + apply Nat.leb_gt in Hge.
      rewrite Nat.div_small, Nat.mod_small by lia.
      unfold keystream_from, core_calls. simpl.
      rewrite Nat.add_0_r, take_drop, Z.add_0_r. reflexivity.
Qed.

Lemma iterate_from_snoc {A : Type} (g : Z -> A) (z : Z) (q : nat) :
  iterate_from g z (S q) = iterate_from g z q ++ [g (z + Z.of_nat q)].
Proof. unfold iterate_from. rewrite seq_S, fmap_app. reflexivity. Qed.

Lemma keystream_from_snoc (n k : list Z) (z : Z) (q : nat) :
  keystream_from n k z (S q)
  = keystream_from n k z q ++ salsa20_block (block_input n (z + Z.of_nat q)) k sigma.
Proof.
  unfold keystream_from. rewrite iterate_from_snoc, join_app. simpl.
  rewrite app_nil_r. reflexivity.
Qed.

Lemma core_calls_snoc (n k : list Z) (z : Z) (q : nat) :
  core_calls n k z (S q)
  = core_calls n k z q ++ [Core_salsa20 (block_input n (z + Z.of_nat q)) k sigma].
Proof. unfold core_calls. apply iterate_from_snoc. Qed.

Lemma blocks_for_div (len : nat) :
  blocks_for len = if (len mod 64 =? 0)%nat then (len / 64)%nat else S (len / 64).
Proof.
  unfold blocks_for.
  pose proof (Nat.div_mod_eq len 64) as Hd.
  pose proof (Nat.mod_upper_bound len 64 ltac:(lia)) as Hm.
  destruct (len mod 64 =? 0)%nat eqn:E.
  - apply Nat.eqb_eq in E.
    symmetry. apply Nat.div_unique with (r := 63%nat); lia.
  - apply Nat.eqb_neq in E.
    symmetry. apply Nat.div_unique with (r := (len mod 64 - 1)%nat); lia.
Qed.

(** A call that fills the local array [block]. *)
Lemma crypto_core_salsa20_block (inp k c : list Z) :
  crypto_core_salsa20 (replicate 64 0) 0 inp k c
  = Run (0, salsa20_block inp k c) [Core_salsa20 inp k c].
Proof.
  rewrite crypto_core_salsa20_run by (rewrite length_replicate; lia).
  change (drop (0 + 64) (replicate 64 0)) with (@nil Z).
  rewrite app_nil_r. reflexivity.
Qed.

(** The keystream written over the first [len] bytes of a buffer whose
    first [64 * q] bytes are already keystream. *)
Lemma partial_block_written (c ks : list Z) (q r : nat) (f : nat -> Z) :
  length ks = (64 * q)%nat -> (64 * q + r <= length c)%nat ->
  for_range 0 r (fun i c0 => <[(0 + 64 * q + i)%nat := f i]> c0)
    (take 0 c ++ ks ++ drop (0 + 64 * q) c)
  = (ks ++ (f <$> seq 0 r)) ++ drop (64 * q + r) c.
Proof.
  intros Hks Hlen. simpl take. simpl app at 1.
  rewrite for_range_write by (rewrite length_app, length_drop; lia).
  rewrite take_app_length' by lia.
  replace (0 + 64 * q + r)%nat with (length ks + r)%nat by lia.
  rewrite drop_app_add, drop_drop, <- app_assoc.
  f_equal.
Qed.

Lemma crypto_stream_salsa20_run (c : list Z) (clen : nat) (n k : list Z) :
  (8 <= length n)%nat -> (clen <= length c)%nat ->
  crypto_stream_salsa20 c clen n k
  = Run (0, take clen (salsa20_keystream n k (blocks_for clen)) ++ drop clen c)
        (core_calls n k 0 (blocks_for clen)).
Proof.
  intros Hn Hlen. unfold crypto_stream_salsa20.
  destruct (clen =? 0)%nat eqn:E0.
  { apply Nat.eqb_eq in E0. subst clen. reflexivity. }
  apply Nat.eqb_neq in E0.
  rewrite init_block_input_0 by exact Hn.
  rewrite stream_loop_run; [|exact Hn|apply Nat.Div0.div_le_upper_bound; lia|simpl; lia].
  unfold mbind at 1, M_bind at 1. cbn [value trace].
  rewrite blocks_for_div, salsa20_keystream_from.
  pose proof (Nat.div_mod_eq clen 64) as Hd.
  pose proof (Nat.mod_upper_bound clen 64 ltac:(lia)) as Hm.
  revert Hd Hm. generalize (clen mod 64)%nat as r, (clen / 64)%nat as q.
  intros r q Hd Hm.
  destruct (r =? 0)%nat eqn:Er.
  - apply Nat.eqb_eq in Er. cbn [mret M_ret value trace].
    rewrite app_nil_r. f_equal. f_equal.
    rewrite (take_ge (keystream_from n k 0 q)) by (rewrite length_keystream_from; lia).
    simpl take. simpl app at 1. do 2 f_equal. lia.
  - apply Nat.eqb_neq in Er.
    rewrite crypto_core_salsa20_block.
    unfold mbind, M_bind. cbn [mret M_ret value trace].
    rewrite core_calls_snoc, app_nil_r, Z.add_0_l.
    f_equal. f_equal.
    rewrite partial_block_written; [|apply length_keystream_from|lia].
    rewrite take_lookups by (rewrite length_salsa20_block; lia).
    rewrite keystream_from_snoc, Z.add_0_l.
    replace clen with (length (keystream_from n k 0 q) + r)%nat at 1
      by (rewrite length_keystream_from; lia).
    rewrite take_app_add. do 2 f_equal. lia.
Qed.

(** ** The keystream xor'ed into a message *)

Lemma xor_lookups (m blk : list Z) (r : nat) :
  (r <= length m)%nat -> (r <= length blk)%nat ->
  (fun i => uchar (Z.lxor (m !!! i) (blk !!! i))) <$> seq 0 r
  = xor_bytes (take r m) (take r blk).
Proof.
  intros Hm Hb. unfold xor_bytes.
  rewrite <- (take_lookups r m), <- (take_lookups r blk) by lia.
  rewrite zip_with_fmap_l, zip_with_fmap_r, zip_with_diag. reflexivity.
Qed.

Lemma xor_bytes_app (a1 a2 b1 b2 : list Z) :
  length a1 = length b1 ->
  xor_bytes (a1 ++ a2) (b1 ++ b2) = xor_bytes a1 b1 ++ xor_bytes a2 b2.
Proof. intros H. unfold xor_bytes. apply zip_with_app. exact H. Qed.

Lemma length_xor_bytes (a b : list Z) :
  length a = length b -> length (xor_bytes a b) = length a.
Proof. intros H. unfold xor_bytes. rewrite length_zip_with. lia. Qed.

(** The loop of lines 265-279. *)
Lemma stream_xor_loop_run (n k : list Z) (Hn : (8 <= length n)%nat) :
  forall (fuel : nat) (c : list Z) (co : nat) (m : list Z) (mlen : nat) (z : Z),
  (mlen / 64 <= fuel)%nat -> (co + mlen <= length c)%nat -> (mlen <= length m)%nat ->
  stream_xor_loop fuel c co m mlen (block_input n z) k
  = Run (take co c
           ++ xor_bytes (take (64 * (mlen / 64)) m) (keystream_from n k z (mlen / 64))
           ++ drop (co + 64 * (mlen / 64)) c,
         (co + 64 * (mlen / 64))%nat, drop (64 * (mlen / 64)) m, (mlen mod 64)%nat,
         block_input n (z + Z.of_nat (mlen / 64)))
        (core_calls n k z (mlen / 64)).
Proof.
  induction fuel as [|fuel IH]; intros c co m mlen z Hfuel Hlen Hm.
  - assert (Hq : (mlen / 64 = 0)%nat) by lia. rewrite Hq.
    assert (Hsmall : (mlen < 64)%nat) by (apply Nat.div_small_iff in Hq; lia).
    rewrite Nat.mod_small by exact Hsmall.
    cbn [stream_xor_loop]. unfold keystream_from, core_calls. simpl.
    rewrite Nat.add_0_r, take_drop, Z.add_0_r. reflexivity.
  - cbn [stream_xor_loop]. destruct (64 <=? mlen)%nat eqn:Hge.
    + apply Nat.leb_le in Hge.
      assert (Hdiv : (mlen / 64 = S ((mlen - 64) / 64))%nat).
      { replace mlen with ((mlen - 64) + 1 * 64)%nat at 1 by lia.
        rewrite Nat.div_add by lia. lia. }
      assert (Hmod : (mlen mod 64 = (mlen - 64) mod 64)%nat).
      { replace mlen with ((mlen - 64) + 1 * 64)%nat at 1 by lia.
        rewrite Nat.Div0.mod_add. reflexivity. }
      rewrite Hdiv, Hmod, keystream_from_S, core_calls_S.
      rewrite crypto_core_salsa20_block.
      unfold mbind at 1, M_bind at 1. cbn [value trace].
      rewrite increment_counter_block_input by exact Hn.
      rewrite for_range_write by lia.
      rewrite xor_lookups by (rewrite ?length_salsa20_block; lia).
      rewrite (take_ge (salsa20_block _ _ _)) by (rewrite length_salsa20_block; lia).
      assert (Hblk : length (salsa20_block (block_input n z) k sigma) = 64%nat)
        by apply length_salsa20_block.
      revert Hblk. generalize (salsa20_block (block_input n z) k sigma) as blk.
      intros blk Hblk.
      assert (Hx : length (xor_bytes (take 64 m) blk) = 64%nat)
        by (rewrite length_xor_bytes; rewrite length_take; lia).
      rewrite IH; [|lia|rewrite !length_app, length_take, Hx, length_drop; lia
                  |rewrite length_drop; lia].
      cbn [value trace].
      generalize ((mlen - 64) / 64)%nat as q. intros q.
      generalize (keystream_from n k (z + 1) q) as ks. intros ks.
      assert (Hpre : length (take co c) = co) by (rewrite length_take; lia).
      replace (z + 1 + Z.of_nat q) with (z + Z.of_nat (S q)) by lia.
      replace (co + 64 + 64 * q)%nat with (co + 64 * S q)%nat by lia.
      rewrite drop_drop.
      replace (64 + 64 * q)%nat with (64 * S q)%nat by lia.
      f_equal. do 4 f_equal.
      rewrite <- Hx at 1. rewrite take_written by exact Hpre.
      replace (co + 64 * S q)%nat
        with (co + length (xor_bytes (take 64 m) blk) + 64 * q)%nat by lia.
      rewrite drop_written by exact Hpre.
      rewrite drop_drop, <- !app_assoc. f_equal.
      replace (64 * S q)%nat with (64 + 64 * q)%nat by lia.
      rewrite <- (take_take_drop m 64 (64 * q)).
      rewrite xor_bytes_app by (rewrite length_take; lia).
      rewrite <- app_assoc. do 3 f_equal. lia.
    + apply Nat.leb_gt in Hge.
      rewrite Nat.div_small, Nat.mod_small by lia.
      unfold keystream_from, core_calls. simpl.
      rewrite Nat.add_0_r, take_drop, Z.add_0_r. reflexivity.
Qed.

Lemma crypto_stream_salsa20_xor_run (c m : list Z) (mlen : nat) (n k : list Z) :
  (8 <= length n)%nat -> (mlen <= length c)%nat -> (mlen <= length m)%nat ->
  crypto_stream_salsa20_xor c m mlen n k
  = Run (0, xor_bytes (take mlen m) (take mlen (salsa20_keystream n k (blocks_for mlen)))
            ++ drop mlen c)
        (core_calls n k 0 (blocks_for mlen)).
Proof.
  intros Hn Hlen Hm. unfold crypto_stream_salsa20_xor.
  destruct (mlen =? 0)%nat eqn:E0.
  { apply Nat.eqb_eq in E0. subst mlen. reflexivity. }
  apply Nat.eqb_neq in E0.
  rewrite init_block_input_0 by exact Hn.
  rewrite stream_xor_loop_run;
    [|exact Hn|apply Nat.Div0.div_le_upper_bound; lia|simpl; lia|exact Hm].
  unfold mbind at 1, M_bind at 1. cbn [value trace].
  rewrite blocks_for_div, salsa20_keystream_from.
  pose proof (Nat.div_mod_eq mlen 64) as Hd.
  pose proof (Nat.mod_upper_bound mlen 64 ltac:(lia)) as Hr.
  revert Hd Hr. generalize (mlen mod 64)%nat as r, (mlen / 64)%nat as q.
  intros r q Hd Hr.
  assert (Hks : length (keystream_from n k 0 q) = (64 * q)%nat)
    by apply length_keystream_from.
  destruct (r =? 0)%nat eqn:Er.
  - apply Nat.eqb_eq in Er. cbn [mret M_ret value trace].
    rewrite app_nil_r. f_equal. f_equal.
    rewrite (take_ge (keystream_from n k 0 q)) by lia.
    rewrite take_0, app_nil_l.
    replace (0 + 64 * q)%nat with mlen by lia.
    replace (64 * q)%nat with mlen by lia. reflexivity.
  - apply Nat.eqb_neq in Er.
    rewrite crypto_core_salsa20_block.
    unfold mbind, M_bind. cbn [mret M_ret value trace].
    rewrite core_calls_snoc, app_nil_r, Z.add_0_l.
    f_equal. f_equal.
    rewrite partial_block_written;
      [|rewrite length_xor_bytes; rewrite length_take; lia|lia].
    rewrite xor_lookups by (rewrite ?length_drop, ?length_salsa20_block; lia).
    rewrite keystream_from_snoc, Z.add_0_l.
    revert Hks. generalize (keystream_from n k 0 q) as ks.
    generalize (salsa20_block (block_input n (Z.of_nat q)) k sigma) as blk.
    intros blk ks Hks.
    replace mlen with (64 * q + r)%nat by lia.
    rewrite <- (take_take_drop m (64 * q) r).
    replace (take (64 * q + r) (ks ++ blk)) with (ks ++ take r blk).
    2:{ rewrite <- Hks. rewrite take_app_add. reflexivity. }
    rewrite xor_bytes_app by (rewrite length_take; lia).
    reflexivity.
Qed.

(** ** Bytewise xor *)

Lemma lxor_uchar (x y : Z) : is_uchar x -> is_uchar y -> is_uchar (Z.lxor x y).
Proof.
  unfold is_uchar. intros Hx Hy. split.
  - apply Z.lxor_nonneg. lia.
  - destruct (Z.eq_dec (Z.lxor x y) 0) as [->|Hne]; [lia|].
    assert (Hnn : 0 <= Z.lxor x y) by (apply Z.lxor_nonneg; lia).
    change 256 with (2 ^ 8). apply Z.log2_lt_pow2; [lia|].
    pose proof (Z.log2_lxor x y ltac:(lia) ltac:(lia)) as Hl.
    assert (Hlx : Z.log2 x < 8).
    { destruct (Z.eq_dec x 0) as [->|]; [simpl; lia|]. apply Z.log2_lt_pow2; lia. }
    assert (Hly : Z.log2 y < 8).
    { destruct (Z.eq_dec y 0) as [->|]; [simpl; lia|]. apply Z.log2_lt_pow2; lia. }
    lia.
Qed.

Lemma uchar_small (z : Z) : is_uchar z -> uchar z = z.
Proof. unfold is_uchar, uchar. intros H. apply Z.mod_small. exact H. Qed.

Lemma xor_bytes_drop (n : nat) : forall (a b : list Z),
  drop n (xor_bytes a b) = xor_bytes (drop n a) (drop n b).
Proof.
  induction n as [|n IH]; intros a b; [reflexivity|].
  destruct a as [|x a], b as [|y b]; simpl; try reflexivity.
  - unfold xor_bytes. destruct (drop n a); reflexivity.
  - apply IH.
Qed.

Lemma xor_bytes_take (n : nat) : forall (a b : list Z),
  take n (xor_bytes a b) = xor_bytes (take n a) (take n b).
Proof.
  induction n as [|n IH]; intros a b; [reflexivity|].
  destruct a as [|x a], b as [|y b]; simpl; try reflexivity.
  unfold xor_bytes in *. simpl. f_equal. apply IH.
Qed.

Lemma xor_bytes_uchar (a b : list Z) : Forall is_uchar (xor_bytes a b).
Proof.
  revert b; induction a as [|x a IH]; intros [|y b]; simpl; try constructor.
  - unfold is_uchar, uchar. apply Z.mod_pos_bound. lia.
  - apply IH.
Qed.

(** Xor with the same keystream twice gives the message back. *)
Lemma xor_bytes_involutive (a : list Z) : forall (b : list Z),
  Forall is_uchar a -> Forall is_uchar b -> length a = length b ->
  xor_bytes (xor_bytes a b) b = a.
Proof.
  induction a as [|x a IH]; intros [|y b] Ha Hb Hlen; try discriminate; [reflexivity|].
  inversion Ha as [|? ? Hx Ha']; subst. inversion Hb as [|? ? Hy Hb']; subst.
  unfold xor_bytes in *. simpl. f_equal.
  - rewrite (uchar_small (Z.lxor x y)) by (apply lxor_uchar; assumption).
    rewrite Z.lxor_assoc, Z.lxor_nilpotent, Z.lxor_0_r.
    apply uchar_small. exact Hx.
  - apply IH; [assumption|assumption|]. simpl in Hlen. congruence.
Qed.

(** Xor with zero bytes gives the keystream itself. *)
Lemma xor_bytes_zeros (b : list Z) :
  Forall is_uchar b -> xor_bytes (replicate (length b) 0) b = b.
Proof.
  induction 1 as [|y b Hy Hb IH]; [reflexivity|].
  unfold xor_bytes in *. simpl. f_equal; [|exact IH].
  rewrite Z.lxor_0_l. apply uchar_small. exact Hy.
Qed.

(** ** XSalsa20 *)

Lemma crypto_core_hsalsa20_subkey (n k c : list Z) :
  crypto_core_hsalsa20 (replicate 32 0) n k c
  = Run (0, hsalsa20_bytes n k c) [Core_hsalsa20 n k c].
Proof.
  rewrite crypto_core_hsalsa20_run by (rewrite length_replicate; lia).
  change (drop 32 (replicate 32 0)) with (@nil Z).
  rewrite app_nil_r. reflexivity.
Qed.

Lemma xsalsa20_stream_run (c : list Z) (clen : nat) (n k : list Z) :
  (24 <= length n)%nat -> (clen <= length c)%nat ->
  xsalsa20_stream c clen n k
  = Run (0, take clen (xsalsa20_keystream n k (blocks_for clen)) ++ drop clen c)
        (Core_hsalsa20 n k sigma
         :: core_calls (drop 16 n) (hsalsa20_bytes n k sigma) 0 (blocks_for clen)
         ++ [Scope_exit "xsalsa20_stream" (hsalsa20_bytes n k sigma)]).
Proof.
  intros Hn Hlen. unfold xsalsa20_stream.
  rewrite crypto_core_hsalsa20_subkey.
  unfold mbind at 1, M_bind at 1. cbn [value trace].
  rewrite crypto_stream_salsa20_run by (rewrite ?length_drop; lia).
  reflexivity.
Qed.

Lemma xsalsa20_stream_xor_run (c m : list Z) (mlen : nat) (n k : list Z) :
  (24 <= length n)%nat -> (mlen <= length c)%nat -> (mlen <= length m)%nat ->
  xsalsa20_stream_xor c m mlen n k
  = Run (0, xor_bytes (take mlen m) (take mlen (xsalsa20_keystream n k (blocks_for mlen)))
            ++ drop mlen c)
        (Core_hsalsa20 n k sigma
         :: core_calls (drop 16 n) (hsalsa20_bytes n k sigma) 0 (blocks_for mlen)
         ++ [Scope_exit "xsalsa20_stream_xor" (hsalsa20_bytes n k sigma)]).
Proof.
  intros Hn Hlen Hm. unfold xsalsa20_stream_xor.
  rewrite crypto_core_hsalsa20_subkey.
  unfold mbind at 1, M_bind at 1. cbn [value trace].
  rewrite crypto_stream_salsa20_xor_run by (rewrite ?length_drop; lia).
  reflexivity.
Qed.

(** * The claims *)

(** ** The rotations (C10) *)

Lemma body_checked_defined (body : list quarter) :
  Forall (fun q => 0 < amount q < 32) body ->
  forall x : list Z, body_checked body x = Some (fold_left update body x).
Proof.
  unfold body_checked.
  induction 1 as [|q body Hq Hbody IH]; intros x; [reflexivity|].
  cbn [fold_left]. rewrite <- IH. f_equal.
  cbn [mbind option_bind]. unfold update_checked, rotate_checked, shift_defined.
  replace (0 <=? amount q) with true by (symmetry; apply Z.leb_le; lia).
  replace (amount q <? 32) with true by (symmetry; apply Z.ltb_lt; lia).
  replace (0 <=? 32 - amount q) with true by (symmetry; apply Z.leb_le; lia).
  replace (32 - amount q <? 32) with true by (symmetry; apply Z.ltb_lt; lia).
  reflexivity.
Qed.

(** C10.  Every [rotate] of both loop bodies has an amount among 7, 9, 13
    and 18, so the two shifts [c] and [32 - c] lie strictly between 0 and 32;
    run with the checked rotation, each loop body is defined on every state
    and computes what the unchecked one computes. *)
Theorem rotate_amounts_defined :
  Forall (fun q => In (amount q) [7; 9; 13; 18]
                   /\ 0 < amount q < 32 /\ 0 < 32 - amount q < 32)
         (hsalsa20_body ++ salsa20_body)
  /\ (forall x, body_checked hsalsa20_body x = Some (fold_left update hsalsa20_body x))
  /\ (forall x, body_checked salsa20_body x = Some (fold_left update salsa20_body x)).
Proof.
  assert (Hall : Forall (fun q => In (amount q) [7; 9; 13; 18]
                   /\ 0 < amount q < 32 /\ 0 < 32 - amount q < 32)
         (hsalsa20_body ++ salsa20_body)).
  { unfold hsalsa20_body, salsa20_body. simpl app.
    repeat (apply List.Forall_cons; [simpl; lia|]). apply List.Forall_nil. }
  split; [exact Hall|].
  apply Forall_app in Hall as [Hh Hs].
  split; apply body_checked_defined.
  - eapply Forall_impl; [exact Hh|]. intros q (_ & H & _). exact H.
  - eapply Forall_impl; [exact Hs|]. intros q (_ & H & _). exact H.
Qed.

(** ** HSalsa20 (C9) *)

Lemma join_le_bytes_word (ws : list Z) : forall i : nat,
  (i < length ws)%nat ->
  take 4 (drop (4 * i) (mjoin (le_bytes 4 <$> ws))) = le_bytes 4 (ws !!! i).
Proof.
  induction ws as [|w ws IH]; intros i Hi; [simpl in Hi; lia|].
  rewrite fmap_cons, join_cons. destruct i as [|i].
  - rewrite Nat.mul_0_r, drop_0. apply take_app_length'. reflexivity.
  - replace (4 * S i)%nat with (length (le_bytes 4 w) + 4 * i)%nat
      by (rewrite length_le_bytes; lia).
    rewrite drop_app_add. apply IH. simpl in Hi. lia.
Qed.

(** C9.  The 32 bytes that [crypto_core_hsalsa20] writes are the words
    0, 5, 10, 15, 6, 7, 8, 9 of the state after the ten double rounds, in
    that order, four little-endian bytes each; nothing is added to them, and
    the rest of the buffer is left as it was. *)
Theorem hsalsa20_output_words (out inp k c : list Z) :
  (32 <= length out)%nat ->
  let x := rounds_loop (Z.to_nat ROUNDS) hsalsa20_body ROUNDS (load_state inp k c) in
  let out' := snd (value (crypto_core_hsalsa20 out inp k c)) in
  x = double_rounds hsalsa20_body (loaded_words inp k c)
  /\ take 32 out'
     = le_bytes 4 (x !!! 0%nat) ++ le_bytes 4 (x !!! 5%nat)
       ++ le_bytes 4 (x !!! 10%nat) ++ le_bytes 4 (x !!! 15%nat)
       ++ le_bytes 4 (x !!! 6%nat) ++ le_bytes 4 (x !!! 7%nat)
       ++ le_bytes 4 (x !!! 8%nat) ++ le_bytes 4 (x !!! 9%nat)
  /\ drop 32 out' = drop 32 out.
Proof.
  intros Hlen x out'.
  assert (Hx : x = hsalsa20_words inp k c).
  { unfold x, hsalsa20_words.
    rewrite rounds_loop_double_rounds, load_state_loaded_words. reflexivity. }
  assert (Hout : out' = hsalsa20_bytes inp k c ++ drop 32 out).
  { unfold out'. rewrite crypto_core_hsalsa20_run by exact Hlen. reflexivity. }
  clearbody x out'. subst x out'.
  split; [reflexivity|].
  rewrite take_app_length' by (rewrite length_hsalsa20_bytes; reflexivity).
  rewrite drop_app_length' by (rewrite length_hsalsa20_bytes; reflexivity).
  split; [|reflexivity].
  apply hsalsa20_bytes_words.
Qed.

Lemma hsalsa20_output_words_witness :
  (32 <= length (replicate 32 7))%nat
  /\ snd (value (crypto_core_hsalsa20 (replicate 32 7) Sample.nonce Sample.key sigma))
     = [220; 144; 141; 218;  11; 147;  68; 169;  83;  98; 155; 115;  56;  32; 119; 136;
        128; 243; 206; 180;  33; 187;  97; 185;  28; 189;  76;  62; 102;  37; 108; 228].
Proof.
  split; [vm_compute; lia|].
  destruct (hsalsa20_output_words (replicate 32 7) Sample.nonce Sample.key sigma)
    as (_ & Htake & _); [vm_compute; lia|].
  rewrite <- (take_drop 32 (snd _)), Htake.
  vm_compute. reflexivity.
Defined.

(** ** The Salsa20 core (C4) *)

(** C4, as stated, at one input whose sixteen result words are pairwise
    different: the word found at position [i] of the output is result word
    [i] for every [i], so the output order is the sequential one. *)
Lemma salsa20_output_order_counterexample :
  let inp := block_input (drop 16 Sample.nonce) 0 in
  let ws := salsa20_words inp Sample.key sigma in
  let out := snd (value (crypto_core_salsa20 (replicate 64 0) 0 inp Sample.key sigma)) in
  NoDup ws /\ ~ (exists i : nat, (i < 16)%nat /\ word_at out i <> ws !!! i).
Proof.
  split.
  - apply (bool_decide_unpack (NoDup _)). vm_compute. exact I.
  - intros (i & Hi & Hne). apply Hne.
    do 16 (destruct i as [|i]; [vm_compute; reflexivity|]). lia.
Qed.

(** C4, amended.  After the feedback addition the sixteen result words are
    written in sequential order, word [i] as four little-endian bytes at
    offset [4 * i]; the words had been loaded in the order constant, key,
    constant, input, constant, key, constant, and the bytes around the 64
    written ones are left as they were. *)
Theorem salsa20_output_sequential (out : list Z) (o : nat) (inp k c : list Z) :
  (o + 64 <= length out)%nat ->
  let j := load_state inp k c in
  let x := rounds_loop (Z.to_nat ROUNDS) salsa20_body ROUNDS j in
  let out' := snd (value (crypto_core_salsa20 out o inp k c)) in
  j = [ word_at c 0; word_at k 0; word_at k 1; word_at k 2;
        word_at k 3; word_at c 1; word_at inp 0; word_at inp 1;
        word_at inp 2; word_at inp 3; word_at c 2; word_at k 4;
        word_at k 5; word_at k 6; word_at k 7; word_at c 3 ]%nat
  /\ x = double_rounds salsa20_body j
  /\ (forall i : nat, (i < 16)%nat ->
        take 4 (drop (o + 4 * i) out') = le_bytes 4 ((x !!! i + j !!! i) mod 2 ^ 32))
  /\ take o out' = take o out
  /\ drop (o + 64) out' = drop (o + 64) out.
Proof.
  intros Hlen j x out'.
  assert (Hx : x = double_rounds salsa20_body j)
    by (unfold x; apply rounds_loop_double_rounds).
  assert (Hws : salsa20_words inp k c
                = zip_with (fun x j => (x + j) mod 2 ^ 32) x j).
  { rewrite Hx. unfold j. rewrite load_state_loaded_words. reflexivity. }
  assert (Hout : out' = take o out ++ mjoin (le_bytes 4 <$> salsa20_words inp k c)
                          ++ drop (o + 64) out).
  { unfold out'. rewrite crypto_core_salsa20_run by exact Hlen.
    cbn [value snd]. rewrite salsa20_block_words. reflexivity. }
  assert (Hpre : length (take o out) = o) by (rewrite length_take; lia).
  assert (Hj : length j = 16%nat) by reflexivity.
  assert (Hload : j = loaded_words inp k c) by reflexivity.
  assert (Hlx : length x = 16%nat) by (rewrite Hx, length_double_rounds; exact Hj).
  clearbody x j out'. subst out'.
  split; [exact Hload|split; [exact Hx|split; [|split]]].
  - intros i Hi.
    rewrite <- Hpre at 1. rewrite drop_app_add.
    rewrite drop_app_le by (rewrite length_join_le_bytes, length_salsa20_words; lia).
    rewrite take_app_le
      by (rewrite length_drop, length_join_le_bytes, length_salsa20_words; lia).
    rewrite join_le_bytes_word by (rewrite length_salsa20_words; lia).
    f_equal. rewrite Hws.
    destruct (lookup_lt_is_Some_2 x i ltac:(lia)) as [xi Hxi].
    destruct (lookup_lt_is_Some_2 j i ltac:(lia)) as [ji Hji].
    rewrite (list_lookup_total_correct x i xi Hxi).
    rewrite (list_lookup_total_correct j i ji Hji).
    apply list_lookup_total_correct.
    rewrite lookup_zip_with, Hxi, Hji. reflexivity.
  - apply take_app_length'. symmetry. exact Hpre.
  - replace (o + 64)%nat
      with (length (take o out) + length (mjoin (le_bytes 4 <$> salsa20_words inp k c)) + 0)%nat
      by (rewrite length_join_le_bytes, length_salsa20_words; lia).
    rewrite drop_written by reflexivity. reflexivity.
Qed.

Lemma salsa20_output_sequential_witness :
  (0 + 64 <= length (replicate 64 9))%nat
  /\ take 4 (drop (0 + 4 * 9) (snd (value (crypto_core_salsa20 (replicate 64 9) 0
                                    (block_input (drop 16 Sample.nonce) 0)
                                    (hsalsa20_bytes Sample.nonce Sample.key sigma) sigma))))
     = [116; 233; 224; 166].
Proof.
  split; [vm_compute; lia|].
  destruct (salsa20_output_sequential (replicate 64 9) 0
              (block_input (drop 16 Sample.nonce) 0)
              (hsalsa20_bytes Sample.nonce Sample.key sigma) sigma)
    as (_ & _ & Hword & _); [vm_compute; lia|].
  rewrite (Hword 9%nat) by lia.
  vm_compute. reflexivity.
Defined.

(** ** The Salsa20 stream (C7, C6) *)

(** C7.  [crypto_stream_salsa20] calls the feedback permutation once per
    started 64-byte block, with the constant "expand 32-byte k" and with the
    block input made of the nonce and the 8-byte little-endian counter, which
    is 0 at the first call and one more at each next call (the increment
    carries across the eight bytes); the output is the first [clen] bytes of
    the blocks so produced, so that a last partial chunk takes the leading
    bytes of one more block; for [clen = 0] there is no call and the buffer
    is left as it was. *)
Theorem salsa20_keystream_generator (c : list Z) (clen : nat) (n k : list Z) :
  length n = 8%nat -> (clen <= length c)%nat ->
  let r := crypto_stream_salsa20 c clen n k in
  let blocks := if (clen mod 64 =? 0)%nat then (clen / 64)%nat else S (clen / 64) in
  sigma = (fun a => Z.of_nat (Ascii.nat_of_ascii a))
            <$> list_ascii_of_string "expand 32-byte k"
  /\ init_block_input n = n ++ le_bytes 8 0
  /\ (forall z : Z, increment_counter (n ++ le_bytes 8 z) = n ++ le_bytes 8 (z + 1))
  /\ trace r = (fun j => Core_salsa20 (n ++ le_bytes 8 (Z.of_nat j)) k sigma)
                 <$> seq 0 blocks
  /\ value r
     = (0, take clen
             (mjoin ((fun j => salsa20_block (n ++ le_bytes 8 (Z.of_nat j)) k sigma)
                       <$> seq 0 blocks))
           ++ drop clen c)
  /\ (clen = 0%nat -> r = Run (0, c) []).
Proof.
  intros Hn Hlen r blocks.
  assert (Hn8 : (8 <= length n)%nat) by lia.
  assert (Htake : take 8 n = n) by (apply take_ge; lia).
  assert (Hr : r = Run (0, take clen (salsa20_keystream n k (blocks_for clen))
                           ++ drop clen c)
                       (core_calls n k 0 (blocks_for clen)))
    by (apply crypto_stream_salsa20_run; assumption).
  assert (Hb : blocks_for clen = blocks) by apply blocks_for_div.
  clearbody r blocks. subst r. rewrite Hb.
  split; [reflexivity|].
  split; [rewrite init_block_input_0 by exact Hn8; unfold block_input; rewrite Htake; reflexivity|].
  split.
  { intros z. pose proof (increment_counter_block_input n z Hn8) as Hinc.
    unfold block_input in Hinc. rewrite Htake in Hinc. exact Hinc. }
  unfold core_calls, salsa20_keystream, block_input. rewrite iterate_from_0, Htake.
  split; [reflexivity|]. split; [reflexivity|].
  intros ->. rewrite <- Hb. reflexivity.
Qed.

Lemma salsa20_keystream_generator_witness :
  length (drop 16 Sample.nonce) = 8%nat /\ (70 <= length (replicate 72 1))%nat
  /\ trace (crypto_stream_salsa20 (replicate 72 1) 70 (drop 16 Sample.nonce) Sample.key)
     = [ Core_salsa20 [130; 25; 224; 3; 107; 122; 11; 55; 0; 0; 0; 0; 0; 0; 0; 0]
           Sample.key sigma;
         Core_salsa20 [130; 25; 224; 3; 107; 122; 11; 55; 1; 0; 0; 0; 0; 0; 0; 0]
           Sample.key sigma ].
Proof.
  split; [reflexivity|]. split; [vm_compute; lia|].
  destruct (salsa20_keystream_generator (replicate 72 1) 70 (drop 16 Sample.nonce)
              Sample.key) as (_ & _ & _ & Htrace & _); [reflexivity|vm_compute; lia|].
  rewrite Htrace. reflexivity.
Defined.

(** C6.  [crypto_stream_salsa20_xor] leaves in the first [length m] bytes of
    its output the bytes of the message, each xor'ed with the byte that
    [crypto_stream_salsa20] produces at the same index for the same key,
    nonce and length. *)
Theorem salsa20_xor_keystream (c c' m n k : list Z) :
  length k = 32%nat -> length n = 8%nat -> Forall is_uchar m ->
  length c = length m -> length c' = length m ->
  let out := snd (value (crypto_stream_salsa20_xor c m (length m) n k)) in
  let keystream := snd (value (crypto_stream_salsa20 c' (length m) n k)) in
  length out = length m
  /\ length keystream = length m
  /\ forall i : nat, (i < length m)%nat -> out !!! i = Z.lxor (m !!! i) (keystream !!! i).
Proof.
  intros _ Hn Hm Hc Hc' out keystream.
  set (ks := take (length m) (salsa20_keystream n k (blocks_for (length m)))).
  assert (Hks : length ks = length m).
  { unfold ks. rewrite length_take, salsa20_keystream_from, length_keystream_from.
    rewrite blocks_for_div.
    pose proof (Nat.div_mod_eq (length m) 64) as Hd.
    pose proof (Nat.mod_upper_bound (length m) 64 ltac:(lia)) as Hr.
    destruct (length m mod 64 =? 0)%nat eqn:E;
      [apply Nat.eqb_eq in E|apply Nat.eqb_neq in E]; lia. }
  assert (Hku : Forall is_uchar ks).
  { unfold ks. apply Forall_take. rewrite salsa20_keystream_from.
    apply keystream_from_uchar. }
  assert (Hout : out = xor_bytes m ks).
  { unfold out. rewrite crypto_stream_salsa20_xor_run by lia.
    cbn [value snd]. rewrite take_ge by lia.
    rewrite drop_ge by lia. apply app_nil_r. }
  assert (Hkey : keystream = ks).
  { unfold keystream. rewrite crypto_stream_salsa20_run by lia.
    cbn [value snd]. rewrite drop_ge by lia. apply app_nil_r. }
  clearbody out keystream ks. subst out keystream.
  split; [apply length_xor_bytes; lia|]. split; [exact Hks|].
  intros i Hi.
  destruct (lookup_lt_is_Some_2 m i Hi) as [a Ha].
  destruct (lookup_lt_is_Some_2 ks i ltac:(lia)) as [b Hb].
  rewrite (list_lookup_total_correct m i a Ha).
  rewrite (list_lookup_total_correct ks i b Hb).
  apply list_lookup_total_correct.
  unfold xor_bytes. rewrite lookup_zip_with, Ha, Hb. simpl. f_equal.
  apply uchar_small. apply lxor_uchar.
  - exact (Forall_lookup_1 _ _ _ _ Hm Ha).
  - exact (Forall_lookup_1 _ _ _ _ Hku Hb).
Qed.

Lemma sample_message_uchar : Forall is_uchar Sample.message.
Proof.
  apply (bool_decide_unpack (Forall (fun b => 0 <= b < 256) Sample.message)).
  vm_compute. exact I.
Qed.

Lemma salsa20_xor_keystream_witness :
  length Sample.key = 32%nat /\ length (drop 16 Sample.nonce) = 8%nat
  /\ Forall is_uchar Sample.message
  /\ snd (value (crypto_stream_salsa20_xor (replicate 72 0) Sample.message 72
                   (drop 16 Sample.nonce) Sample.key)) !!! 40%nat
     = Z.lxor (Sample.message !!! 40%nat)
         (snd (value (crypto_stream_salsa20 (replicate 72 9) 72
                        (drop 16 Sample.nonce) Sample.key)) !!! 40%nat).
Proof.
  pose proof sample_message_uchar as Hm.
  split; [reflexivity|]. split; [reflexivity|]. split; [exact Hm|].
  destruct (salsa20_xor_keystream (replicate 72 0) (replicate 72 9) Sample.message
              (drop 16 Sample.nonce) Sample.key) as (_ & _ & Hxor);
    [reflexivity|reflexivity|exact Hm|reflexivity|reflexivity|].
  apply (Hxor 40%nat). vm_compute. lia.
Defined.

(** ** Secretbox *)

Lemma for_range_write_0 (f : nat -> Z) (n : nat) (c : list Z) :
  (n <= length c)%nat ->
  for_range 0 n (fun i c => <[i := f i]> c) c = (f <$> seq 0 n) ++ drop n c.
Proof. intros Hn. exact (for_range_write f 0 n c Hn). Qed.

Lemma length_xsalsa20_xor_buffer (c m : list Z) (mlen : nat) (n k : list Z) :
  (mlen <= length c)%nat -> (mlen <= length m)%nat ->
  length (xsalsa20_xor_buffer c m mlen n k) = length c.
Proof.
  intros Hc Hm. unfold xsalsa20_xor_buffer, xsalsa20_keystream.
  rewrite length_app, length_drop, length_xor_bytes.
  - rewrite length_take. lia.
  - rewrite !length_take, salsa20_keystream_from, length_keystream_from, blocks_for_div.
    pose proof (Nat.div_mod_eq mlen 64) as Hd.
    pose proof (Nat.mod_upper_bound mlen 64 ltac:(lia)) as Hr.
    destruct (mlen mod 64 =? 0)%nat eqn:E;
      [apply Nat.eqb_eq in E|apply Nat.eqb_neq in E]; lia.
Qed.

Lemma xsalsa20_stream_xor_buffer (c m : list Z) (mlen : nat) (n k : list Z) :
  (24 <= length n)%nat -> (mlen <= length c)%nat -> (mlen <= length m)%nat ->
  xsalsa20_stream_xor c m mlen n k
  = Run (0, xsalsa20_xor_buffer c m mlen n k) (xsalsa20_trace "xsalsa20_stream_xor" n k mlen).
Proof. apply xsalsa20_stream_xor_run. Qed.

(** The 32 bytes that line 342 leaves in [subkey]. *)
Lemma xsalsa20_stream_mac_key (n k : list Z) :
  (24 <= length n)%nat ->
  xsalsa20_stream (replicate 32 0) 32 n k
  = Run (0, mac_key n k) (xsalsa20_trace "xsalsa20_stream" n k 32).
Proof.
  intros Hn. rewrite xsalsa20_stream_run by (rewrite ?length_replicate; lia).
  change (drop 32 (replicate 32 0)) with (@nil Z). rewrite app_nil_r.
  reflexivity.
Qed.

Section Secretbox_runs.

Variable poly1305_auth : list Z -> list Z -> list Z.
Variable poly1305_auth_verify : list Z -> list Z -> list Z -> Z.

(** What a call of [xsalsa20poly1305_secretbox] that passes the length
    check does. *)
Lemma secretbox_run (c m : list Z) (mlen : nat) (n k : list Z) :
  (24 <= length n)%nat -> (32 <= mlen)%nat ->
  (mlen <= length c)%nat -> (mlen <= length m)%nat ->
  let x := xsalsa20_xor_buffer c m mlen n k in
  let mac := poly1305_auth (take (mlen - 32) (drop 32 x)) (take 32 x) in
  xsalsa20poly1305_secretbox poly1305_auth c m mlen n k
  = Run (0, replicate 16 0 ++ ((fun i => mac !!! i) <$> seq 0 16) ++ drop 32 x)
        (xsalsa20_trace "xsalsa20_stream_xor" n k mlen
         ++ [Poly1305_auth (take (mlen - 32) (drop 32 x)) (take 32 x)]).
Proof.
  intros Hn Hmlen Hc Hm x mac. unfold xsalsa20poly1305_secretbox.
  replace (mlen <? 32)%nat with false by (symmetry; apply Nat.ltb_ge; lia).
  rewrite xsalsa20_stream_xor_buffer by assumption.
  unfold call_poly1305_auth, emit.
  unfold mbind, M_bind. cbn [mret M_ret value trace].
  fold x. fold mac.
  assert (Hx : length x = length c) by (apply length_xsalsa20_xor_buffer; assumption).
  clearbody mac x.
  rewrite app_nil_r. f_equal. f_equal.
  rewrite (for_range_write (fun i => mac !!! i) 16 16 x) by lia.
  rewrite for_range_write_0
    by (rewrite !length_app, length_take, length_fmap, length_seq, length_drop; lia).
  change ((fun _ : nat => 0) <$> seq 0 16) with (replicate 16 0).
  f_equal.
  replace 16%nat with (length (take 16 x)) at 1 by (rewrite length_take; lia).
  rewrite drop_app_length. reflexivity.
Qed.

(** What a call of [xsalsa20poly1305_secretbox_open] does up to the
    verification, and when the verification fails. *)
Lemma secretbox_open_reject (m c : list Z) (clen : nat) (n k : list Z) :
  (24 <= length n)%nat -> (32 <= clen)%nat ->
  poly1305_auth_verify (take 16 (drop 16 c)) (take (clen - 32) (drop 32 c)) (mac_key n k)
    <> 0 ->
  xsalsa20poly1305_secretbox_open poly1305_auth_verify m c clen n k
  = Run (-1, m)
        (xsalsa20_trace "xsalsa20_stream" n k 32
         ++ [ Poly1305_auth_verify (take 16 (drop 16 c)) (take (clen - 32) (drop 32 c))
                (mac_key n k);
              Scope_exit "xsalsa20poly1305_secretbox_open" (mac_key n k) ]).
Proof.
  intros Hn Hclen Hv. unfold xsalsa20poly1305_secretbox_open.
  replace (clen <? 32)%nat with false by (symmetry; apply Nat.ltb_ge; lia).
  rewrite xsalsa20_stream_mac_key by exact Hn.
  unfold call_poly1305_auth_verify, emit.
  unfold mbind, M_bind. cbn [mret M_ret value trace].
  rewrite !(proj2 (Z.eqb_neq _ _) Hv).
  cbn [negb value trace]. reflexivity.
Qed.

Lemma secretbox_open_accept (m c : list Z) (clen : nat) (n k : list Z) :
  (24 <= length n)%nat -> (32 <= clen)%nat ->
  (clen <= length m)%nat -> (clen <= length c)%nat ->
  poly1305_auth_verify (take 16 (drop 16 c)) (take (clen - 32) (drop 32 c)) (mac_key n k)
    = 0 ->
  xsalsa20poly1305_secretbox_open poly1305_auth_verify m c clen n k
  = Run (0, replicate 32 0 ++ drop 32 (xsalsa20_xor_buffer m c clen n k))
        (xsalsa20_trace "xsalsa20_stream" n k 32
         ++ Poly1305_auth_verify (take 16 (drop 16 c)) (take (clen - 32) (drop 32 c))
              (mac_key n k)
         :: xsalsa20_trace "xsalsa20_stream_xor" n k clen
         ++ [Scope_exit "xsalsa20poly1305_secretbox_open" (mac_key n k)]).
Proof.
  intros Hn Hclen Hm Hc Hv. unfold xsalsa20poly1305_secretbox_open.
  replace (clen <? 32)%nat with false by (symmetry; apply Nat.ltb_ge; lia).
  rewrite xsalsa20_stream_mac_key by exact Hn.
  unfold call_poly1305_auth_verify, emit.
  unfold mbind, M_bind. cbn [mret M_ret value trace].
  rewrite !Hv. cbn [Z.eqb negb].
  rewrite xsalsa20_stream_xor_buffer by assumption.
  cbn [value trace].
  rewrite for_range_write_0 by (rewrite length_xsalsa20_xor_buffer; lia).
  change ((fun _ : nat => 0) <$> seq 0 32) with (replicate 32 0).
  rewrite app_nil_r. reflexivity.
Qed.

(** A seal that returns 0 has passed the length check. *)
Lemma secretbox_status (c m : list Z) (mlen : nat) (n k : list Z) :
  fst (value (xsalsa20poly1305_secretbox poly1305_auth c m mlen n k)) = 0 ->
  (32 <= mlen)%nat.
Proof.
  intros Hret. destruct (Nat.ltb_spec mlen 32) as [Hlt|Hge]; [|exact Hge].
  unfold xsalsa20poly1305_secretbox in Hret.
  replace (mlen <? 32)%nat with true in Hret by (symmetry; apply Nat.ltb_lt; lia).
  discriminate Hret.
Qed.

(** Whether the verification fails is read off the returned [int]. *)
Lemma secretbox_open_status (m c : list Z) (clen : nat) (n k : list Z) :
  (24 <= length n)%nat ->
  fst (value (xsalsa20poly1305_secretbox_open poly1305_auth_verify m c clen n k)) = 0 ->
  (32 <= clen)%nat
  /\ poly1305_auth_verify (take 16 (drop 16 c)) (take (clen - 32) (drop 32 c))
       (mac_key n k) = 0.
Proof.
  intros Hn Hret.
  destruct (Nat.ltb_spec clen 32) as [Hlt|Hge].
  - unfold xsalsa20poly1305_secretbox_open in Hret.
    replace (clen <? 32)%nat with true in Hret by (symmetry; apply Nat.ltb_lt; lia).
    discriminate Hret.
  - split; [exact Hge|].
    destruct (Z.eq_dec (poly1305_auth_verify (take 16 (drop 16 c))
                          (take (clen - 32) (drop 32 c)) (mac_key n k)) 0) as [Hv|Hv];
      [exact Hv|].
    rewrite secretbox_open_reject in Hret by assumption. discriminate Hret.
Qed.

End Secretbox_runs.

(** ** Facts about the XSalsa20 keystream *)

Lemma length_take_keystream (n k : list Z) (len : nat) :
  length (take len (xsalsa20_keystream n k (blocks_for len))) = len.
Proof.
  unfold xsalsa20_keystream.
  rewrite length_take, salsa20_keystream_from, length_keystream_from, blocks_for_div.
  pose proof (Nat.div_mod_eq len 64) as Hd.
  pose proof (Nat.mod_upper_bound len 64 ltac:(lia)) as Hr.
  destruct (len mod 64 =? 0)%nat eqn:E;
    [apply Nat.eqb_eq in E|apply Nat.eqb_neq in E]; lia.
Qed.

Lemma take_keystream_uchar (n k : list Z) (len : nat) :
  Forall is_uchar (take len (xsalsa20_keystream n k (blocks_for len))).
Proof.
  apply Forall_take. unfold xsalsa20_keystream. rewrite salsa20_keystream_from.
  apply keystream_from_uchar.
Qed.

(** The MAC key is the beginning of every keystream of at least 32 bytes. *)
Lemma take_keystream_mac_key (n k : list Z) (len : nat) :
  (32 <= len)%nat ->
  take 32 (take len (xsalsa20_keystream n k (blocks_for len))) = mac_key n k.
Proof.
  intros Hlen. rewrite take_take. replace (32 `min` len)%nat with 32%nat by lia.
  unfold mac_key, xsalsa20_keystream. rewrite !salsa20_keystream_from.
  assert (Hq : exists q, blocks_for len = S q).
  { rewrite blocks_for_div.
    pose proof (Nat.div_mod_eq len 64) as Hd.
    destruct (len mod 64 =? 0)%nat eqn:E; [apply Nat.eqb_eq in E|eauto].
    destruct (len / 64)%nat as [|q]; [lia|eauto]. }
  destruct Hq as [q ->].
  rewrite !keystream_from_S.
  rewrite !take_app_le by (rewrite length_salsa20_block; lia).
  reflexivity.
Qed.

Lemma length_mac_key (n k : list Z) : length (mac_key n k) = 32%nat.
Proof.
  rewrite <- (take_keystream_mac_key n k 32) by lia.
  rewrite length_take, length_take_keystream. reflexivity.
Qed.

(** After the xor of line 323 the first 32 bytes of [c] are the MAC key,
    when the message starts with 32 zero bytes. *)
Lemma xor_buffer_mac_key (c m n k : list Z) :
  (32 <= length m)%nat -> take 32 m = replicate 32 0 -> length c = length m ->
  take 32 (xsalsa20_xor_buffer c m (length m) n k) = mac_key n k.
Proof.
  intros Hlen Hzero Hc. unfold xsalsa20_xor_buffer.
  rewrite (take_ge m) by lia.
  rewrite take_app_le
    by (rewrite length_xor_bytes; rewrite ?length_take_keystream; lia).
  rewrite xor_bytes_take, Hzero, take_keystream_mac_key by exact Hlen.
  rewrite <- (length_mac_key n k) at 1.
  apply xor_bytes_zeros.
  rewrite <- (take_keystream_mac_key n k 32) by lia.
  apply Forall_take, take_keystream_uchar.
Qed.

(** ** The secretbox claims (C3, C2, C5, C8, C1) *)

Lemma scope_exit_in_xsalsa20_trace (fn : string) (n k : list Z) (len : nat) :
  In (Scope_exit fn (hsalsa20_bytes n k sigma)) (xsalsa20_trace fn n k len).
Proof. unfold xsalsa20_trace. right. apply in_app_iff. right. left. reflexivity. Qed.

Section Secretbox_claims.

Variable poly1305_auth : list Z -> list Z -> list Z.
Variable poly1305_auth_verify : list Z -> list Z -> list Z -> Z.

(** C3.  With an input of 31 bytes or less both functions return -1 (the
    one failure code of the source) straight from the length check: no
    permutation call, no MAC call, nothing else is logged, and the output
    buffer is returned as it was passed. *)
Theorem short_input_rejected (out inp : list Z) (len : nat) (n k : list Z) :
  (len <= 31)%nat ->
  xsalsa20poly1305_secretbox poly1305_auth out inp len n k = Run (-1, out) []
  /\ xsalsa20poly1305_secretbox_open poly1305_auth_verify out inp len n k
     = Run (-1, out) [].
Proof.
  intros Hlen. unfold xsalsa20poly1305_secretbox, xsalsa20poly1305_secretbox_open.
  replace (len <? 32)%nat with true by (symmetry; apply Nat.ltb_lt; lia).
  split; reflexivity.
Qed.

(** C2.  When the tag [c[16..32)] does not verify for [c[32..clen)] under
    the first 32 keystream bytes, [xsalsa20poly1305_secretbox_open] returns
    -1 with the output buffer as it was passed; the log shows the one
    HSalsa20 call and the one Salsa20 call that make the MAC key, then the
    verification, and no call of the xor stream: nothing is decrypted. *)
Theorem open_rejects_forgery (out c : list Z) (clen : nat) (n k : list Z) :
  length n = 24%nat -> (32 <= clen)%nat ->
  poly1305_auth_verify (take 16 (drop 16 c)) (take (clen - 32) (drop 32 c))
    (take 32 (xsalsa20_keystream n k 1)) <> 0 ->
  xsalsa20poly1305_secretbox_open poly1305_auth_verify out c clen n k
  = Run (-1, out)
        [ Core_hsalsa20 n k sigma;
          Core_salsa20 (drop 16 n ++ le_bytes 8 0) (hsalsa20_bytes n k sigma) sigma;
          Scope_exit "xsalsa20_stream" (hsalsa20_bytes n k sigma);
          Poly1305_auth_verify (take 16 (drop 16 c)) (take (clen - 32) (drop 32 c))
            (take 32 (xsalsa20_keystream n k 1));
          Scope_exit "xsalsa20poly1305_secretbox_open"
            (take 32 (xsalsa20_keystream n k 1)) ].
Proof.
  intros Hn Hclen Hv.
  rewrite secretbox_open_reject by (assumption || lia).
  f_equal. unfold xsalsa20_trace, core_calls, iterate_from, block_input.
  rewrite (take_ge (drop 16 n)) by (rewrite length_drop; lia).
  reflexivity.
Qed.

(** C5.  On valid input, a seal that returns 0 leaves 16 zero bytes at the
    start of the ciphertext, and an open that returns 0 leaves 32 zero bytes
    at the start of the plaintext. *)
Theorem zero_prefixes (out inp : list Z) (len : nat) (n k : list Z) :
  length n = 24%nat -> (len <= length out)%nat -> (len <= length inp)%nat ->
  (fst (value (xsalsa20poly1305_secretbox poly1305_auth out inp len n k)) = 0 ->
   take 16 (snd (value (xsalsa20poly1305_secretbox poly1305_auth out inp len n k)))
   = replicate 16 0)
  /\ (fst (value (xsalsa20poly1305_secretbox_open poly1305_auth_verify out inp len n k)) = 0 ->
      take 32 (snd (value (xsalsa20poly1305_secretbox_open poly1305_auth_verify
                             out inp len n k)))
      = replicate 32 0).
Proof.
  intros Hn Hout Hinp. split.
  - intros Hret.
    assert (Hlen : (32 <= len)%nat).
    { exact (secretbox_status poly1305_auth out inp len n k Hret). }
    rewrite secretbox_run by (assumption || lia).
    cbn [value snd]. apply take_app_length'. reflexivity.
  - intros Hret.
    destruct (secretbox_open_status poly1305_auth_verify out inp len n k
                ltac:(lia) Hret) as [Hlen Hv].
    rewrite secretbox_open_accept by (assumption || lia).
    cbn [value snd]. apply take_app_length'. reflexivity.
Qed.

(** C8, amended.  The calls do not clear their intermediate buffers: when
    [xsalsa20_stream_xor] and [xsalsa20_stream] return, their local [subkey]
    still holds the 32 bytes derived by HSalsa20, and when an open that has
    passed the length check returns, its local [subkey] still holds the
    first 32 keystream bytes, the MAC key. *)
Theorem subkey_left_in_place (out inp : list Z) (len : nat) (n k : list Z) :
  length n = 24%nat -> (32 <= len)%nat ->
  (len <= length out)%nat -> (len <= length inp)%nat ->
  In (Scope_exit "xsalsa20_stream_xor" (hsalsa20_bytes n k sigma))
     (trace (xsalsa20poly1305_secretbox poly1305_auth out inp len n k))
  /\ In (Scope_exit "xsalsa20_stream" (hsalsa20_bytes n k sigma))
        (trace (xsalsa20poly1305_secretbox_open poly1305_auth_verify out inp len n k))
  /\ In (Scope_exit "xsalsa20poly1305_secretbox_open" (take 32 (xsalsa20_keystream n k 1)))
        (trace (xsalsa20poly1305_secretbox_open poly1305_auth_verify out inp len n k)).
Proof.
  intros Hn Hlen Hout Hinp. split.
  - rewrite secretbox_run by (assumption || lia). cbn [trace].
    apply in_app_iff. left. apply scope_exit_in_xsalsa20_trace.
  - destruct (Z.eq_dec (poly1305_auth_verify (take 16 (drop 16 inp))
                          (take (len - 32) (drop 32 inp)) (mac_key n k)) 0) as [Hv|Hv].
    + rewrite secretbox_open_accept by (assumption || lia). cbn [trace]. split.
      * apply in_app_iff. left. apply scope_exit_in_xsalsa20_trace.
      * apply in_app_iff. right. right. apply in_app_iff. right. left. reflexivity.
    + rewrite secretbox_open_reject by (assumption || lia). cbn [trace]. split.
      * apply in_app_iff. left. apply scope_exit_in_xsalsa20_trace.
      * apply in_app_iff. right. right. left. reflexivity.
Qed.

Hypothesis poly1305_auth_length :
  forall m key : list Z, length (poly1305_auth m key) = 16%nat.
Hypothesis poly1305_auth_verify_auth :
  forall m key : list Z, poly1305_auth_verify (poly1305_auth m key) m key = 0.

(** C1.  For a 32-byte key, a 24-byte nonce and a message of at least 32
    bytes that starts with 32 zero bytes, seal returns 0, and open of the
    sealed buffer with the same nonce and key returns 0 and the message,
    provided that [poly1305_auth] yields 16-byte tags that
    [poly1305_auth_verify] accepts. *)
Theorem open_seal (msg n k c0 m0 : list Z) :
  length k = 32%nat -> length n = 24%nat -> Forall is_uchar msg ->
  (32 <= length msg)%nat -> take 32 msg = replicate 32 0 ->
  length c0 = length msg -> length m0 = length msg ->
  let sealed := xsalsa20poly1305_secretbox poly1305_auth c0 msg (length msg) n k in
  fst (value sealed) = 0
  /\ value (xsalsa20poly1305_secretbox_open poly1305_auth_verify m0
              (snd (value sealed)) (length msg) n k)
     = (0, msg).
Proof.
  intros _ Hn Hmsg Hlen Hzero Hc0 Hm0 sealed. subst sealed.
  rewrite secretbox_run by lia. cbn [value fst snd].
  split; [reflexivity|].
  set (x := xsalsa20_xor_buffer c0 msg (length msg) n k).
  set (mac := poly1305_auth (take (length msg - 32) (drop 32 x)) (take 32 x)).
  rewrite (lookups_all 16 mac) by apply poly1305_auth_length.
  assert (Hx : length x = length msg)
    by (unfold x; rewrite length_xsalsa20_xor_buffer; lia).
  assert (Hkey : take 32 x = mac_key n k) by (apply xor_buffer_mac_key; assumption).
  assert (Hmac : length mac = 16%nat) by apply poly1305_auth_length.
  assert (Hverify : poly1305_auth_verify mac (take (length msg - 32) (drop 32 x))
                      (mac_key n k) = 0).
  { rewrite <- Hkey. apply poly1305_auth_verify_auth. }
  assert (Hxdef : x = xor_bytes msg (take (length msg)
                          (xsalsa20_keystream n k (blocks_for (length msg))))).
  { unfold x, xsalsa20_xor_buffer.
    rewrite take_ge, drop_ge by lia. apply app_nil_r. }
  clearbody mac x.
  set (s := replicate 16 0 ++ mac ++ drop 32 x).
  assert (Hs : length s = length msg).
  { unfold s. rewrite !length_app, length_replicate, length_drop. lia. }
  assert (Hs16 : take 16 (drop 16 s) = mac).
  { unfold s. rewrite drop_app_length' by (rewrite length_replicate; reflexivity).
    apply take_app_length'. symmetry. exact Hmac. }
  assert (Hs32 : drop 32 s = drop 32 x).
  { unfold s. rewrite app_assoc.
    apply drop_app_length'. rewrite length_app, length_replicate. lia. }
  clearbody s.
  rewrite secretbox_open_accept; [|lia|lia|lia|lia|rewrite Hs16, Hs32; exact Hverify].
  cbn [value]. f_equal.
  unfold xsalsa20_xor_buffer.
  pose proof (length_take_keystream n k (length msg)) as HK.
  pose proof (take_keystream_uchar n k (length msg)) as HKu.
  revert HK HKu Hxdef.
  generalize (take (length msg) (xsalsa20_keystream n k (blocks_for (length msg)))) as K.
  intros K HK HKu Hxdef.
  rewrite (take_ge s), (drop_ge m0), app_nil_r by lia.
  rewrite xor_bytes_drop, Hs32, Hxdef, xor_bytes_drop.
  rewrite xor_bytes_involutive.
  - rewrite <- Hzero. apply take_drop.
  - apply Forall_drop. exact Hmsg.
  - apply Forall_drop. exact HKu.
  - rewrite !length_drop. lia.
Qed.

End Secretbox_claims.

(** ** The claims at the test data *)

Lemma sample_auth_length (m key : list Z) : length (Sample.auth m key) = 16%nat.
Proof. unfold Sample.auth. rewrite length_fmap, length_seq. reflexivity. Qed.

Lemma sample_auth_verify_auth (m key : list Z) :
  Sample.auth_verify (Sample.auth m key) m key = 0.
Proof. unfold Sample.auth_verify. rewrite decide_True; reflexivity. Qed.

Lemma short_input_rejected_witness :
  (31 <= 31)%nat
  /\ xsalsa20poly1305_secretbox Sample.auth (replicate 31 5) (replicate 31 0) 31
       Sample.nonce Sample.key = Run (-1, replicate 31 5) []
  /\ xsalsa20poly1305_secretbox_open Sample.auth_verify (replicate 31 5) (replicate 31 0) 31
       Sample.nonce Sample.key = Run (-1, replicate 31 5) [].
Proof.
  split; [lia|].
  apply (short_input_rejected Sample.auth Sample.auth_verify). lia.
Defined.

Lemma open_rejects_forgery_witness :
  length Sample.nonce = 24%nat /\ (32 <= 40)%nat
  /\ Sample.auth_verify (take 16 (drop 16 (replicate 40 3)))
       (take (40 - 32) (drop 32 (replicate 40 3)))
       (take 32 (xsalsa20_keystream Sample.nonce Sample.key 1)) <> 0
  /\ value (xsalsa20poly1305_secretbox_open Sample.auth_verify (replicate 40 255)
              (replicate 40 3) 40 Sample.nonce Sample.key)
     = (-1, replicate 40 255).
Proof.
  assert (Hv : Sample.auth_verify (take 16 (drop 16 (replicate 40 3)))
                 (take (40 - 32) (drop 32 (replicate 40 3)))
                 (take 32 (xsalsa20_keystream Sample.nonce Sample.key 1)) <> 0)
    by (vm_compute; discriminate).
  split; [reflexivity|]. split; [lia|]. split; [exact Hv|].
  rewrite (open_rejects_forgery Sample.auth_verify (replicate 40 255) (replicate 40 3) 40
             Sample.nonce Sample.key eq_refl ltac:(lia) Hv).
  reflexivity.
Defined.

Lemma zero_prefixes_witness :
  length Sample.nonce = 24%nat /\ (72 <= length (replicate 72 255))%nat
  /\ (72 <= length Sample.message)%nat
  /\ (72 <= length (snd (value (Sample.seal Sample.message))))%nat
  /\ take 16 (snd (value (xsalsa20poly1305_secretbox Sample.auth (replicate 72 255)
                            Sample.message 72 Sample.nonce Sample.key)))
     = replicate 16 0
  /\ take 32 (snd (value (xsalsa20poly1305_secretbox_open Sample.auth_verify
                            (replicate 72 255) (snd (value (Sample.seal Sample.message)))
                            72 Sample.nonce Sample.key)))
     = replicate 32 0.
Proof.
  assert (H1 : (72 <= length (replicate 72 255))%nat) by (vm_compute; lia).
  assert (H2 : (72 <= length Sample.message)%nat) by (vm_compute; lia).
  assert (H3 : (72 <= length (snd (value (Sample.seal Sample.message))))%nat)
    by (vm_compute; lia).
  split; [reflexivity|]. split; [exact H1|]. split; [exact H2|]. split; [exact H3|].
  split.
  - refine (proj1 (zero_prefixes Sample.auth Sample.auth_verify (replicate 72 255)
                     Sample.message 72 Sample.nonce Sample.key eq_refl H1 H2) _).
    vm_compute. reflexivity.
  - refine (proj2 (zero_prefixes Sample.auth Sample.auth_verify (replicate 72 255)
                     (snd (value (Sample.seal Sample.message))) 72
                     Sample.nonce Sample.key eq_refl H1 H3) _).
    vm_compute. reflexivity.
Defined.

(** C8, as stated, at the test data: the buffer that leaves scope when
    [xsalsa20_stream_xor] returns inside a seal holds the derived subkey, not
    zeros. *)
Lemma subkey_not_cleared_counterexample :
  ~ cleared_on_exit (trace (Sample.seal Sample.message)).
Proof.
  intros Hcleared.
  assert (Hin : In (Scope_exit "xsalsa20_stream_xor"
                      [220; 144; 141; 218;  11; 147;  68; 169;
                        83;  98; 155; 115;  56;  32; 119; 136;
                       128; 243; 206; 180;  33; 187;  97; 185;
                        28; 189;  76;  62; 102;  37; 108; 228])
                   (trace (Sample.seal Sample.message))).
  { vm_compute. do 3 right. left. reflexivity. }
  specialize (Hcleared _ _ Hin). unfold zeroed in Hcleared.
  apply Forall_cons in Hcleared as [Hzero _]. discriminate Hzero.
Qed.

Lemma subkey_left_in_place_witness :
  length Sample.nonce = 24%nat /\ (32 <= 72)%nat
  /\ (72 <= length (replicate 72 255))%nat /\ (72 <= length Sample.message)%nat
  /\ In (Scope_exit "xsalsa20_stream_xor" (hsalsa20_bytes Sample.nonce Sample.key sigma))
        (trace (xsalsa20poly1305_secretbox Sample.auth (replicate 72 255) Sample.message 72
                  Sample.nonce Sample.key)).
Proof.
  assert (H1 : (72 <= length (replicate 72 255))%nat) by (vm_compute; lia).
  assert (H2 : (72 <= length Sample.message)%nat) by (vm_compute; lia).
  split; [reflexivity|]. split; [lia|]. split; [exact H1|]. split; [exact H2|].
  exact (proj1 (subkey_left_in_place Sample.auth Sample.auth_verify (replicate 72 255)
                  Sample.message 72 Sample.nonce Sample.key
                  eq_refl ltac:(lia) H1 H2)).
Defined.

Lemma open_seal_witness :
  length Sample.key = 32%nat /\ length Sample.nonce = 24%nat
  /\ Forall is_uchar Sample.message /\ (32 <= length Sample.message)%nat
  /\ take 32 Sample.message = replicate 32 0
  /\ fst (value (xsalsa20poly1305_secretbox Sample.auth (replicate 72 0) Sample.message
                   (length Sample.message) Sample.nonce Sample.key)) = 0
  /\ value (xsalsa20poly1305_secretbox_open Sample.auth_verify (replicate 72 255)
              (snd (value (xsalsa20poly1305_secretbox Sample.auth (replicate 72 0)
                             Sample.message (length Sample.message)
                             Sample.nonce Sample.key)))
              (length Sample.message) Sample.nonce Sample.key)
     = (0, Sample.message).
Proof.
  assert (Hlen : (32 <= length Sample.message)%nat) by (vm_compute; lia).
  split; [reflexivity|]. split; [reflexivity|]. split; [exact sample_message_uchar|].
  split; [exact Hlen|]. split; [reflexivity|].
  exact (open_seal Sample.auth Sample.auth_verify sample_auth_length sample_auth_verify_auth
           Sample.message Sample.nonce Sample.key (replicate 72 0) (replicate 72 255)
           eq_refl eq_refl sample_message_uchar Hlen eq_refl eq_refl eq_refl).
Defined.

(** * Further properties of the code *)

(** ** Words and bytes (lines 13-34) *)

Lemma is_uint32_bits (z : Z) :
  0 <= z -> (forall i : Z, 32 <= i -> Z.testbit z i = false) -> is_uint32 z.
Proof.
  intros Hz Hbits. split; [exact Hz|].
  destruct (Z.eq_dec z 0) as [->|Hne]; [lia|].
  apply Z.log2_lt_pow2; [lia|].
  destruct (Z_lt_le_dec (Z.log2 z) 32) as [Hlt|Hge]; [exact Hlt|].
  pose proof (Z.bit_log2 z ltac:(lia)) as Hbit.
  rewrite (Hbits _ Hge) in Hbit. discriminate Hbit.
Qed.

Lemma uint32_bits_high (z i : Z) : is_uint32 z -> 32 <= i -> Z.testbit z i = false.
Proof.
  intros Hz Hi. rewrite <- (Z.mod_small z (2 ^ 32)) by exact Hz.
  apply Z.mod_pow2_bits_high. lia.
Qed.

Lemma uint32_is_uint32 (z : Z) : is_uint32 (uint32 z).
Proof. unfold is_uint32, uint32. apply Z.mod_pos_bound. lia. Qed.

Lemma lor_uint32 (a b : Z) : is_uint32 a -> is_uint32 b -> is_uint32 (Z.lor a b).
Proof.
  intros Ha Hb. apply is_uint32_bits.
  - apply Z.lor_nonneg. unfold is_uint32 in *. lia.
  - intros i Hi. rewrite Z.lor_spec, !uint32_bits_high by assumption. reflexivity.
Qed.

Lemma lxor_uint32 (a b : Z) : is_uint32 a -> is_uint32 b -> is_uint32 (Z.lxor a b).
Proof.
  intros Ha Hb. apply is_uint32_bits.
  - apply Z.lxor_nonneg. unfold is_uint32 in *. lia.
  - intros i Hi. rewrite Z.lxor_spec, !uint32_bits_high by assumption. reflexivity.
Qed.

Lemma shiftr_uint32 (u c : Z) : is_uint32 u -> 0 <= c -> is_uint32 (Z.shiftr u c).
Proof.
  intros Hu Hc. apply is_uint32_bits.
  - apply Z.shiftr_nonneg. unfold is_uint32 in Hu. lia.
  - intros i Hi. rewrite Z.shiftr_spec by lia. apply uint32_bits_high; [exact Hu|lia].
Qed.

(** X2.  On a 32-bit word and for an amount strictly between 0 and 32,
    [rotate] is the rotation to the left: the result is a 32-bit word whose
    bit [i] is bit [i - c] of the argument, counted modulo 32; rotating on by
    [32 - c] gives the argument back. *)
Theorem rotate_is_rotation (u c : Z) :
  is_uint32 u -> 0 < c < 32 ->
  is_uint32 (rotate u c)
  /\ (forall i : Z, 0 <= i < 32 ->
        Z.testbit (rotate u c) i = Z.testbit u ((i - c) mod 32))
  /\ rotate (rotate u c) (32 - c) = u.
Proof.
  intros Hu Hc.
  assert (Hrange : forall v d, is_uint32 v -> 0 < d < 32 -> is_uint32 (rotate v d)).
  { intros v d Hv Hd. unfold rotate. apply lor_uint32.
    - apply uint32_is_uint32.
    - apply shiftr_uint32; [exact Hv|lia]. }
  assert (Hbit : forall v d i, is_uint32 v -> 0 < d < 32 -> 0 <= i < 32 ->
            Z.testbit (rotate v d) i = Z.testbit v ((i - d) mod 32)).
  { intros v d i Hv Hd Hi. unfold rotate, uint32.
    rewrite Z.lor_spec, Z.testbit_mod_pow2, Z.shiftl_spec, Z.shiftr_spec by lia.
    replace (i <? 32) with true by (symmetry; apply Z.ltb_lt; lia). cbn [andb].
    destruct (Z_lt_le_dec i d) as [Hlt|Hge].
    - rewrite Z.testbit_neg_r by lia. cbn [orb]. f_equal.
      apply Z.mod_unique with (q := -1); lia.
    - rewrite (uint32_bits_high v (i + (32 - d))) by (assumption || lia).
      rewrite orb_false_r. f_equal.
      symmetry. apply Z.mod_small. lia. }
  split; [apply Hrange; assumption|]. split; [intros i Hi; apply Hbit; assumption|].
  apply Z.bits_inj'. intros i Hi.
  destruct (Z_lt_le_dec i 32) as [Hlt|Hge].
  - rewrite Hbit by (try apply Hrange; assumption || lia).
    rewrite Hbit by (assumption || lia || apply Z.mod_pos_bound; lia).
    f_equal. rewrite Zminus_mod_idemp_l.
    replace (i - (32 - c) - c) with (i + (-1) * 32) by lia.
    rewrite Z.mod_add by lia. apply Z.mod_small. lia.
  - rewrite !uint32_bits_high; try assumption; try reflexivity.
    apply Hrange; [apply Hrange; assumption|lia].
Qed.

Lemma rotate_is_rotation_witness :
  is_uint32 2147483649 /\ 0 < 7 < 32
  /\ rotate (rotate 2147483649 7) (32 - 7) = 2147483649.
Proof.
  assert (Hu : is_uint32 2147483649) by (unfold is_uint32; lia).
  split; [exact Hu|]. split; [lia|].
  exact (proj2 (proj2 (rotate_is_rotation 2147483649 7 Hu ltac:(lia)))).
Defined.

(** X1.  A word stored by [store_littleendian] is read back by
    [load_littleendian] from the same place, reduced modulo [2^32]; the store
    changes four bytes and no other. *)
Theorem load_store_littleendian (x : list Z) (off : nat) (u : Z) :
  (off + 4 <= length x)%nat ->
  load_littleendian (drop off (store_littleendian x off u)) = u mod 2 ^ 32
  /\ length (store_littleendian x off u) = length x
  /\ take off (store_littleendian x off u) = take off x
  /\ drop (off + 4) (store_littleendian x off u) = drop (off + 4) x.
Proof.
  intros Hlen.
  assert (Hpre : length (take off x) = off) by (rewrite length_take; lia).
  rewrite length_store_littleendian, store_littleendian_bytes by exact Hlen.
  split; [|split; [reflexivity|split]].
  - rewrite drop_app_length' by (symmetry; exact Hpre).
    unfold load_littleendian, uint32. cbn [le_bytes app lookup_total list_lookup_total].
    change 256 with (2 ^ 8).
    rewrite <- !Z.shiftr_div_pow2 by lia.
    apply Z.bits_inj'. intros i Hi.
    rewrite !Z.lor_spec.
    repeat rewrite ?Z.testbit_mod_pow2, ?Z.shiftl_spec, ?Z.shiftr_spec by lia.
    destruct (Z_lt_le_dec i 8); [|destruct (Z_lt_le_dec i 16);
      [|destruct (Z_lt_le_dec i 24); [|destruct (Z_lt_le_dec i 32)]]];
      repeat match goal with
             | |- context [?a <? ?b] =>
                 first [ replace (a <? b) with true by (symmetry; apply Z.ltb_lt; lia)
                       | replace (a <? b) with false by (symmetry; apply Z.ltb_ge; lia) ]
             end;
      cbn [andb orb];
      try rewrite (Z.testbit_neg_r _ (i - 8)) by lia;
      try rewrite (Z.testbit_neg_r _ (i - 16)) by lia;
      try rewrite (Z.testbit_neg_r _ (i - 24)) by lia;
      cbn [andb orb]; rewrite ?orb_false_r; try reflexivity;
      repeat rewrite Z.shiftr_spec by lia;
      f_equal; lia.
  - apply take_app_length'. symmetry. exact Hpre.
  - replace (off + 4)%nat with (length (take off x) + length (le_bytes 4 u) + 0)%nat
      by (rewrite Hpre, length_le_bytes; lia).
    rewrite drop_written by reflexivity. reflexivity.
Qed.

Lemma load_store_littleendian_witness :
  (3 + 4 <= length (replicate 8 9))%nat
  /\ load_littleendian (drop 3 (store_littleendian (replicate 8 9) 3 4294967298)) = 2.
Proof.
  split; [vm_compute; lia|].
  exact (proj1 (load_store_littleendian (replicate 8 9) 3 4294967298
                  ltac:(vm_compute; lia))).
Defined.

(** ** The round network (lines 63-96 and 139-172) *)

Lemma update_involutive (x : list Z) (q : quarter) :
  target_apart q -> update (update x q) q = x.
Proof.
  intros [Hl Hr]. unfold update.
  rewrite (list_lookup_total_insert_ne x (target q) (left q)) by exact Hl.
  rewrite (list_lookup_total_insert_ne x (target q) (right q)) by exact Hr.
  rewrite list_insert_insert_eq.
  destruct (Nat.lt_ge_cases (target q) (length x)) as [Hlt|Hge].
  - rewrite list_lookup_total_insert_eq by exact Hlt.
    rewrite Z.lxor_assoc, Z.lxor_nilpotent, Z.lxor_0_r.
    apply list_insert_id.
    destruct (lookup_lt_is_Some_2 x (target q) Hlt) as [y Hy].
    rewrite Hy. f_equal. symmetry. apply list_lookup_total_correct. exact Hy.
  - apply list_insert_ge. exact Hge.
Qed.

Lemma body_reversed (body : list quarter) :
  Forall target_apart body ->
  forall x : list Z, fold_left update (rev body) (fold_left update body x) = x.
Proof.
  induction 1 as [|q body Hq Hbody IH]; intros x; [reflexivity|].
  cbn [fold_left rev]. rewrite fold_left_app, IH. cbn [fold_left].
  apply update_involutive. exact Hq.
Qed.

Lemma iter_reversed (f g : list Z -> list Z) (n : nat) :
  (forall x, g (f x) = x) -> forall x, Nat.iter n g (Nat.iter n f x) = x.
Proof.
  intros Hgf. induction n as [|n IH]; intros x; [reflexivity|].
  rewrite Nat.iter_succ_r, Nat.iter_succ, Hgf. apply IH.
Qed.

Lemma salsa20_body_apart : Forall target_apart salsa20_body.
Proof.
  unfold salsa20_body.
  repeat (apply List.Forall_cons; [split; discriminate|]). apply List.Forall_nil.
Qed.

Lemma hsalsa20_body_apart : Forall target_apart hsalsa20_body.
Proof.
  unfold hsalsa20_body.
  repeat (apply List.Forall_cons; [split; discriminate|]). apply List.Forall_nil.
Qed.

Lemma Forall_rev_apart (body : list quarter) :
  Forall target_apart body -> Forall target_apart (rev body).
Proof. intros H. apply Forall_rev. exact H. Qed.

(** X3.  The twenty rounds of either core are a bijection of the state:
    running the lines of the loop body in reverse order, ten times, undoes
    them, and the other way round.  Whatever the cores lose, they lose in the
    feedback addition and in the choice of the output words. *)
Theorem rounds_bijective (x : list Z) :
  inverse_rounds salsa20_body (rounds_loop (Z.to_nat ROUNDS) salsa20_body ROUNDS x) = x
  /\ rounds_loop (Z.to_nat ROUNDS) salsa20_body ROUNDS (inverse_rounds salsa20_body x) = x
  /\ inverse_rounds hsalsa20_body (rounds_loop (Z.to_nat ROUNDS) hsalsa20_body ROUNDS x) = x
  /\ rounds_loop (Z.to_nat ROUNDS) hsalsa20_body ROUNDS (inverse_rounds hsalsa20_body x) = x.
Proof.
  rewrite !rounds_loop_double_rounds. unfold inverse_rounds, double_rounds.
  split; [|split; [|split]].
  - apply iter_reversed. apply body_reversed, salsa20_body_apart.
  - apply iter_reversed. intros y.
    rewrite <- (rev_involutive salsa20_body) at 1.
    apply body_reversed, Forall_rev_apart, salsa20_body_apart.
  - apply iter_reversed. apply body_reversed, hsalsa20_body_apart.
  - apply iter_reversed. intros y.
    rewrite <- (rev_involutive hsalsa20_body) at 1.
    apply body_reversed, Forall_rev_apart, hsalsa20_body_apart.
Qed.

Lemma lookup_total_uint32 (x : list Z) (i : nat) :
  Forall is_uint32 x -> is_uint32 (x !!! i).
Proof.
  intros Hx. destruct (Nat.lt_ge_cases i (length x)) as [Hlt|Hge].
  - apply Forall_lookup_total_1; assumption.
  - rewrite list_lookup_total_alt, lookup_ge_None_2 by exact Hge.
    unfold is_uint32. simpl. lia.
Qed.

Lemma lookup_total_uchar (x : list Z) (i : nat) :
  Forall is_uchar x -> is_uchar (x !!! i).
Proof.
  intros Hx. destruct (Nat.lt_ge_cases i (length x)) as [Hlt|Hge].
  - apply Forall_lookup_total_1; assumption.
  - rewrite list_lookup_total_alt, lookup_ge_None_2 by exact Hge.
    unfold is_uchar. simpl. lia.
Qed.

Lemma rotate_range (u c : Z) : is_uint32 u -> 0 < c < 32 -> is_uint32 (rotate u c).
Proof.
  intros Hu Hc. unfold rotate. apply lor_uint32.
  - apply uint32_is_uint32.
  - apply shiftr_uint32; [exact Hu|lia].
Qed.

Lemma update_uint32 (x : list Z) (q : quarter) :
  0 < amount q < 32 -> Forall is_uint32 x -> Forall is_uint32 (update x q).
Proof.
  intros Hq Hx. unfold update. apply Forall_insert; [exact Hx|].
  apply lxor_uint32; [apply lookup_total_uint32; exact Hx|].
  apply (rotate_range (uint32 (x !!! left q + x !!! right q)) (amount q)).
  - apply uint32_is_uint32.
  - exact Hq.
Qed.

Lemma body_uint32 (body : list quarter) :
  Forall (fun q => 0 < amount q < 32) body ->
  forall x : list Z, Forall is_uint32 x -> Forall is_uint32 (fold_left update body x).
Proof.
  induction 1 as [|q body Hq Hbody IH]; intros x Hx; [exact Hx|].
  cbn [fold_left]. apply IH. apply update_uint32; assumption.
Qed.

Lemma load_littleendian_uint32 (x : list Z) :
  Forall is_uchar x -> is_uint32 (load_littleendian x).
Proof.
  intros Hx. unfold load_littleendian.
  repeat apply lor_uint32; try apply uint32_is_uint32.
  pose proof (lookup_total_uchar x 0 Hx) as H0.
  unfold is_uchar in H0. unfold is_uint32. lia.
Qed.

Lemma amounts_in_range (body : list quarter) :
  Forall (fun q => In (amount q) [7; 9; 13; 18]) body ->
  Forall (fun q => 0 < amount q < 32) body.
Proof.
  intros H. eapply Forall_impl; [exact H|]. intros q Hq. simpl in Hq. lia.
Qed.

(** X4.  With keys, nonces and constants made of bytes, the sixteen words
    of either core are 32-bit values when they are loaded, stay so through
    the twenty rounds, and the feedback addition of [crypto_core_salsa20]
    gives 32-bit values again: no word ever leaves the range of
    [unsigned int]. *)
Theorem words_stay_uint32 (inp k c : list Z) :
  Forall is_uchar inp -> Forall is_uchar k -> Forall is_uchar c ->
  Forall is_uint32 (load_state inp k c)
  /\ Forall is_uint32
       (rounds_loop (Z.to_nat ROUNDS) hsalsa20_body ROUNDS (load_state inp k c))
  /\ Forall is_uint32
       (rounds_loop (Z.to_nat ROUNDS) salsa20_body ROUNDS (load_state inp k c))
  /\ Forall is_uint32
       (feedback (rounds_loop (Z.to_nat ROUNDS) salsa20_body ROUNDS (load_state inp k c))
                 (load_state inp k c)).
Proof.
  intros Hinp Hk Hc.
  assert (Hload : Forall is_uint32 (load_state inp k c)).
  { unfold load_state.
    repeat (apply List.Forall_cons;
            [apply load_littleendian_uint32, Forall_drop; assumption|]).
    apply List.Forall_nil. }
  assert (Hrounds : forall body, Forall (fun q => 0 < amount q < 32) body ->
            Forall is_uint32 (double_rounds body (load_state inp k c))).
  { intros body Hbody. unfold double_rounds. generalize 10%nat as n.
    induction n as [|n IH]; [exact Hload|].
    cbn [Nat.iter]. apply body_uint32; assumption. }
  assert (Hamounts : Forall (fun q => 0 < amount q < 32) (hsalsa20_body ++ salsa20_body)).
  { unfold hsalsa20_body, salsa20_body. simpl app.
    repeat (apply List.Forall_cons; [simpl; lia|]). apply List.Forall_nil. }
  apply Forall_app in Hamounts as [Hh Hs].
  rewrite feedback_salsa20_words, !rounds_loop_double_rounds.
  split; [exact Hload|]. split; [apply Hrounds; exact Hh|].
  split; [apply Hrounds; exact Hs|].
  unfold salsa20_words. apply Forall_forall. intros w Hw.
  apply list_elem_of_lookup in Hw as [i Hi].
  apply lookup_zip_with_Some in Hi as (a & b & -> & _ & _).
  unfold is_uint32. apply Z.mod_pos_bound. lia.
Qed.

Lemma words_stay_uint32_witness :
  Forall is_uchar (block_input (drop 16 Sample.nonce) 0) /\ Forall is_uchar Sample.key
  /\ Forall is_uchar sigma
  /\ Forall is_uint32
       (rounds_loop (Z.to_nat ROUNDS) salsa20_body ROUNDS
          (load_state (block_input (drop 16 Sample.nonce) 0) Sample.key sigma)).
Proof.
  assert (H1 : Forall is_uchar (block_input (drop 16 Sample.nonce) 0)).
  { apply (bool_decide_unpack (Forall (fun b => 0 <= b < 256) _)). vm_compute. exact I. }
  assert (H2 : Forall is_uchar Sample.key).
  { apply (bool_decide_unpack (Forall (fun b => 0 <= b < 256) _)). vm_compute. exact I. }
  assert (H3 : Forall is_uchar sigma).
  { apply (bool_decide_unpack (Forall (fun b => 0 <= b < 256) _)). vm_compute. exact I. }
  split; [exact H1|]. split; [exact H2|]. split; [exact H3|].
  exact (proj1 (proj2 (proj2 (words_stay_uint32 _ Sample.key sigma H1 H2 H3)))).
Defined.

(** ** The streams (lines 211-309) *)

Lemma iterate_from_app {A : Type} (g : Z -> A) (z : Z) (q d : nat) :
  iterate_from g z (q + d) = iterate_from g z q ++ iterate_from g (z + Z.of_nat q) d.
Proof.
  induction d as [|d IH].
  - rewrite Nat.add_0_r. unfold iterate_from at 3. simpl. rewrite app_nil_r. reflexivity.
  - replace (q + S d)%nat with (S (q + d)) by lia.
    rewrite !iterate_from_snoc, IH, <- app_assoc. do 4 f_equal. lia.
Qed.

Lemma keystream_from_app (n k : list Z) (z : Z) (q d : nat) :
  keystream_from n k z (q + d)
  = keystream_from n k z q ++ keystream_from n k (z + Z.of_nat q) d.
Proof. unfold keystream_from. rewrite iterate_from_app, join_app. reflexivity. Qed.

Lemma blocks_for_enough (len : nat) : (len <= 64 * blocks_for len)%nat.
Proof.
  rewrite blocks_for_div.
  pose proof (Nat.div_mod_eq len 64) as Hd.
  pose proof (Nat.mod_upper_bound len 64 ltac:(lia)) as Hr.
  destruct (len mod 64 =? 0)%nat eqn:E;
    [apply Nat.eqb_eq in E|apply Nat.eqb_neq in E]; lia.
Qed.

Lemma blocks_for_mono (len1 len2 : nat) :
  (len1 <= len2)%nat -> (blocks_for len1 <= blocks_for len2)%nat.
Proof. intros H. unfold blocks_for. apply Nat.Div0.div_le_mono. lia. Qed.

Lemma take_keystream_prefix (n k : list Z) (len1 len2 : nat) :
  (len1 <= len2)%nat ->
  take len1 (take len2 (salsa20_keystream n k (blocks_for len2)))
  = take len1 (salsa20_keystream n k (blocks_for len1)).
Proof.
  intros Hle. rewrite take_take. replace (len1 `min` len2)%nat with len1 by lia.
  rewrite !salsa20_keystream_from.
  pose proof (blocks_for_mono len1 len2 Hle) as Hq.
  pose proof (blocks_for_enough len1) as Hen.
  replace (blocks_for len2) with (blocks_for len1 + (blocks_for len2 - blocks_for len1))%nat
    by lia.
  rewrite keystream_from_app.
  apply take_app_le. rewrite length_keystream_from. exact Hen.
Qed.

(** X5.  The keystream does not depend on how much of it is asked for, nor
    on what the output buffer holds: the first [len1] bytes written for a
    request of [len2 >= len1] bytes are the bytes written for a request of
    [len1] bytes, for [crypto_stream_salsa20] and for [xsalsa20_stream]. *)
Theorem keystream_prefix_stable (c1 c2 : list Z) (len1 len2 : nat) (n n24 k : list Z) :
  length n = 8%nat -> length n24 = 24%nat ->
  (len1 <= len2)%nat -> (len1 <= length c1)%nat -> (len2 <= length c2)%nat ->
  take len1 (snd (value (crypto_stream_salsa20 c2 len2 n k)))
  = take len1 (snd (value (crypto_stream_salsa20 c1 len1 n k)))
  /\ take len1 (snd (value (xsalsa20_stream c2 len2 n24 k)))
     = take len1 (snd (value (xsalsa20_stream c1 len1 n24 k))).
Proof.
  intros Hn Hn24 Hle Hc1 Hc2.
  assert (Hgen : forall nn kk, 
            take len1 (take len2 (salsa20_keystream nn kk (blocks_for len2)) ++ drop len2 c2)
            = take len1 (take len1 (salsa20_keystream nn kk (blocks_for len1)) ++ drop len1 c1)).
  { intros nn kk.
    assert (Hl : forall len, length (take len (salsa20_keystream nn kk (blocks_for len))) = len).
    { intros len. rewrite length_take, salsa20_keystream_from, length_keystream_from.
      pose proof (blocks_for_enough len). lia. }
    rewrite !take_app_le by (rewrite Hl; lia).
    rewrite take_keystream_prefix by exact Hle.
    rewrite take_take. f_equal. lia. }
  split.
  - rewrite !crypto_stream_salsa20_run by lia. cbn [value snd]. apply Hgen.
  - rewrite !xsalsa20_stream_run by lia. cbn [value snd]. apply Hgen.
Qed.

Lemma keystream_prefix_stable_witness :
  length (drop 16 Sample.nonce) = 8%nat /\ length Sample.nonce = 24%nat
  /\ (32 <= 100)%nat /\ (32 <= length (replicate 32 0))%nat
  /\ (100 <= length (replicate 100 7))%nat
  /\ take 32 (snd (value (xsalsa20_stream (replicate 100 7) 100 Sample.nonce Sample.key)))
     = take 32 (snd (value (xsalsa20_stream (replicate 32 0) 32 Sample.nonce Sample.key))).
Proof.
  assert (H1 : (32 <= length (replicate 32 0))%nat) by (vm_compute; lia).
  assert (H2 : (100 <= length (replicate 100 7))%nat) by (vm_compute; lia).
  split; [reflexivity|]. split; [reflexivity|]. split; [lia|].
  split; [exact H1|]. split; [exact H2|].
  exact (proj2 (keystream_prefix_stable (replicate 32 0) (replicate 100 7) 32 100
                  (drop 16 Sample.nonce) Sample.nonce Sample.key
                  eq_refl eq_refl ltac:(lia) H1 H2)).
Defined.

(** X6.  Decryption is encryption: xor'ing the output of
    [crypto_stream_salsa20_xor] again with the same key and nonce gives the
    message back, and likewise for [xsalsa20_stream_xor]. *)
Theorem stream_xor_involutive (c1 c2 m n n24 k : list Z) :
  length n = 8%nat -> length n24 = 24%nat -> Forall is_uchar m ->
  length c1 = length m -> length c2 = length m ->
  snd (value (crypto_stream_salsa20_xor c2
                (snd (value (crypto_stream_salsa20_xor c1 m (length m) n k)))
                (length m) n k)) = m
  /\ snd (value (xsalsa20_stream_xor c2
                   (snd (value (xsalsa20_stream_xor c1 m (length m) n24 k)))
                   (length m) n24 k)) = m.
Proof.
  intros Hn Hn24 Hm Hc1 Hc2.
  assert (Hgen : forall K : list Z, length K = length m -> Forall is_uchar K ->
            xor_bytes (take (length m) (xor_bytes (take (length m) m) K
                                         ++ drop (length m) c1)) K
            ++ drop (length m) c2 = m).
  { intros K HK HKu.
    rewrite (take_ge m), (drop_ge c1), (drop_ge c2), !app_nil_r by lia.
    rewrite take_ge by (rewrite length_xor_bytes; lia).
    apply xor_bytes_involutive; [assumption|assumption|symmetry; assumption]. }
  split.
  - rewrite (crypto_stream_salsa20_xor_run c1) by lia. cbn [value snd].
    rewrite crypto_stream_salsa20_xor_run;
      [|lia|lia|rewrite length_app, length_drop, length_xor_bytes;
                rewrite !length_take, ?salsa20_keystream_from, ?length_keystream_from;
                pose proof (blocks_for_enough (length m)); lia].
    cbn [value snd]. apply Hgen.
    + rewrite length_take, salsa20_keystream_from, length_keystream_from.
      pose proof (blocks_for_enough (length m)). lia.
    + apply Forall_take. rewrite salsa20_keystream_from. apply keystream_from_uchar.
  - rewrite (xsalsa20_stream_xor_run c1) by lia. cbn [value snd].
    pose proof (length_xsalsa20_xor_buffer c1 m (length m) n24 k ltac:(lia) ltac:(lia))
      as HL.
    unfold xsalsa20_xor_buffer in HL.
    rewrite xsalsa20_stream_xor_run; [|lia|lia|rewrite HL; lia].
    cbn [value snd]. apply Hgen.
    + apply length_take_keystream.
    + apply take_keystream_uchar.
Qed.

Lemma stream_xor_involutive_witness :
  length (drop 16 Sample.nonce) = 8%nat /\ length Sample.nonce = 24%nat
  /\ Forall is_uchar Sample.message
  /\ snd (value (xsalsa20_stream_xor (replicate 72 1)
                   (snd (value (xsalsa20_stream_xor (replicate 72 0) Sample.message
                                  (length Sample.message) Sample.nonce Sample.key)))
                   (length Sample.message) Sample.nonce Sample.key)) = Sample.message.
Proof.
  split; [reflexivity|]. split; [reflexivity|]. split; [exact sample_message_uchar|].
  exact (proj2 (stream_xor_involutive (replicate 72 0) (replicate 72 1) Sample.message
                  (drop 16 Sample.nonce) Sample.nonce Sample.key
                  eq_refl eq_refl sample_message_uchar eq_refl eq_refl)).
Defined.

(** ** Secretbox (lines 314-347) *)

Lemma length_xor_keystream (c : list Z) (clen : nat) (n k : list Z) :
  (clen <= length c)%nat ->
  length (xor_bytes (take clen c) (take clen (xsalsa20_keystream n k (blocks_for clen))))
  = clen.
Proof.
  intros Hc. rewrite length_xor_bytes.
  - rewrite length_take. lia.
  - rewrite length_take, length_take_keystream. lia.
Qed.

Lemma drop_xsalsa20_xor_buffer (out c : list Z) (clen : nat) (n k : list Z) :
  (32 <= clen)%nat -> (clen <= length c)%nat ->
  drop 32 (xsalsa20_xor_buffer out c clen n k)
  = xor_bytes (take (clen - 32) (drop 32 c))
      (drop 32 (take clen (xsalsa20_keystream n k (blocks_for clen))))
    ++ drop clen out.
Proof.
  intros Hclen Hc. unfold xsalsa20_xor_buffer.
  rewrite drop_app_le by (rewrite length_xor_keystream; lia).
  rewrite xor_bytes_drop, take_drop_commute.
  replace (32 + (clen - 32))%nat with clen by lia. reflexivity.
Qed.

Lemma xor_bytes_lxor (a : list Z) : forall b : list Z,
  Forall is_uchar a -> Forall is_uchar b -> xor_bytes a b = zip_with Z.lxor a b.
Proof.
  induction a as [|x a IH]; intros [|y b] Ha Hb; try reflexivity.
  inversion Ha as [|? ? Hx Ha']; subst. inversion Hb as [|? ? Hy Hb']; subst.
  unfold xor_bytes in *. simpl. f_equal.
  - apply uchar_small, lxor_uchar; assumption.
  - apply IH; assumption.
Qed.

Section Secretbox_further.

Variable poly1305_auth : list Z -> list Z -> list Z.
Variable poly1305_auth_verify : list Z -> list Z -> list Z -> Z.

(** X7.  The two functions return 0 or -1 and nothing else: seal returns -1
    exactly for a length below 32; open returns -1 exactly for a length below
    32 or a verification that does not return 0. *)
Theorem secretbox_status_codes (out inp : list Z) (len : nat) (n k : list Z) :
  length n = 24%nat ->
  fst (value (xsalsa20poly1305_secretbox poly1305_auth out inp len n k))
  = (if (len <? 32)%nat then -1 else 0)
  /\ fst (value (xsalsa20poly1305_secretbox_open poly1305_auth_verify out inp len n k))
     = (if (len <? 32)%nat then -1
        else if poly1305_auth_verify (take 16 (drop 16 inp))
                  (take (len - 32) (drop 32 inp))
                  (snd (value (xsalsa20_stream (replicate 32 0) 32 n k))) =? 0
             then 0 else -1).
Proof.
  intros Hn.
  unfold xsalsa20poly1305_secretbox, xsalsa20poly1305_secretbox_open.
  destruct (len <? 32)%nat; [split; reflexivity|].
  split.
  - unfold mbind, M_bind. cbn [value].
    destruct (value (xsalsa20_stream_xor out inp len n k)) as [r c']. reflexivity.
  - rewrite xsalsa20_stream_mac_key by lia.
    unfold call_poly1305_auth_verify, emit, mbind, M_bind. cbn [mret M_ret value trace snd].
    destruct (poly1305_auth_verify _ _ _ =? 0); cbn [negb value fst]; [|reflexivity].
    destruct (value (xsalsa20_stream_xor out inp len n k)) as [r m']. reflexivity.
Qed.

(** X8.  Neither function writes outside the first [len] bytes of its
    output buffer: the buffer keeps its length and the bytes from [len] on
    keep their values, whether the call succeeds or fails. *)
Theorem secretbox_writes_within_length (out inp : list Z) (len : nat) (n k : list Z) :
  length n = 24%nat -> (len <= length out)%nat -> (len <= length inp)%nat ->
  (length (snd (value (xsalsa20poly1305_secretbox poly1305_auth out inp len n k)))
   = length out
   /\ drop len (snd (value (xsalsa20poly1305_secretbox poly1305_auth out inp len n k)))
      = drop len out)
  /\ (length (snd (value (xsalsa20poly1305_secretbox_open poly1305_auth_verify
                            out inp len n k)))
      = length out
      /\ drop len (snd (value (xsalsa20poly1305_secretbox_open poly1305_auth_verify
                                 out inp len n k)))
         = drop len out).
Proof.
  intros Hn Hout Hinp.
  destruct (Nat.lt_ge_cases len 32) as [Hlt|Hge].
  { unfold xsalsa20poly1305_secretbox, xsalsa20poly1305_secretbox_open.
    replace (len <? 32)%nat with true by (symmetry; apply Nat.ltb_lt; lia).
    repeat split; reflexivity. }
  pose proof (length_xsalsa20_xor_buffer out inp len n k Hout Hinp) as Hx.
  pose proof (drop_xsalsa20_xor_buffer out inp len n k Hge Hinp) as Hd.
  assert (Hxl : length (xor_bytes (take (len - 32) (drop 32 inp))
                          (drop 32 (take len (xsalsa20_keystream n k (blocks_for len)))))
                = (len - 32)%nat).
  { rewrite length_xor_bytes.
    - rewrite length_take, length_drop. lia.
    - rewrite length_take, !length_drop, length_take_keystream. lia. }
  split.
  - rewrite secretbox_run by (assumption || lia). cbn [value snd].
    match goal with
    | |- context [replicate 16 0 ++ ?T ++ _] =>
        assert (HT : length T = 16%nat) by (rewrite length_fmap, length_seq; reflexivity);
        revert HT; generalize T
    end.
    intros T HT.
    rewrite !length_app, length_replicate, HT, length_drop, Hx.
    split; [lia|].
    transitivity (drop (32 + (len - 32))
                    ((replicate 16 0 ++ T) ++ drop 32 (xsalsa20_xor_buffer out inp len n k))).
    { rewrite <- app_assoc. f_equal. lia. }
    rewrite drop_app_add' by (rewrite length_app, length_replicate, HT; reflexivity).
    rewrite Hd. rewrite <- Hxl at 1. rewrite drop_app_length. reflexivity.
  - destruct (Z.eq_dec (poly1305_auth_verify (take 16 (drop 16 inp))
                          (take (len - 32) (drop 32 inp)) (mac_key n k)) 0) as [Hv|Hv].
    + rewrite secretbox_open_accept by (assumption || lia). cbn [value snd].
      rewrite length_app, length_replicate, length_drop, Hx.
      split; [lia|].
      transitivity (drop (32 + (len - 32))
                      (replicate 32 0 ++ drop 32 (xsalsa20_xor_buffer out inp len n k))).
      { f_equal. lia. }
      rewrite drop_app_add' by (rewrite length_replicate; reflexivity).
      rewrite Hd. rewrite <- Hxl at 1. rewrite drop_app_length. reflexivity.
    + rewrite secretbox_open_reject by (assumption || lia). cbn [value snd].
      split; reflexivity.
Qed.


End Secretbox_further.

Lemma secretbox_status_codes_witness :
  length Sample.nonce = 24%nat
  /\ fst (value (xsalsa20poly1305_secretbox Sample.auth (replicate 40 0) (replicate 40 3) 40
                   Sample.nonce Sample.key))
     = (if (40 <? 32)%nat then -1 else 0).
Proof.
  split; [reflexivity|].
  exact (proj1 (secretbox_status_codes Sample.auth Sample.auth_verify
                  (replicate 40 0) (replicate 40 3) 40 Sample.nonce Sample.key eq_refl)).
Defined.

Lemma secretbox_writes_within_length_witness :
  length Sample.nonce = 24%nat /\ (40 <= length (replicate 50 9))%nat
  /\ (40 <= length (replicate 40 3))%nat
  /\ drop 40 (snd (value (xsalsa20poly1305_secretbox Sample.auth (replicate 50 9)
                            (replicate 40 3) 40 Sample.nonce Sample.key)))
     = drop 40 (replicate 50 9).
Proof.
  assert (H1 : (40 <= length (replicate 50 9))%nat) by (vm_compute; lia).
  assert (H2 : (40 <= length (replicate 40 3))%nat) by (vm_compute; lia).
  split; [reflexivity|]. split; [exact H1|]. split; [exact H2|].
  exact (proj2 (proj1 (secretbox_writes_within_length Sample.auth Sample.auth_verify
                         (replicate 50 9) (replicate 40 3) 40 Sample.nonce Sample.key
                         eq_refl H1 H2))).
Defined.


Lemma xsalsa20_stream_whole (len : nat) (n k : list Z) :
  (24 <= length n)%nat ->
  snd (value (xsalsa20_stream (replicate len 0) len n k))
  = take len (xsalsa20_keystream n k (blocks_for len)).
Proof.
  intros Hn. rewrite xsalsa20_stream_run by (rewrite ?length_replicate; lia).
  cbn [value snd]. rewrite drop_ge by (rewrite length_replicate; lia).
  apply app_nil_r.
Qed.

Lemma xsalsa20_xor_buffer_whole (c m n k : list Z) :
  length c = length m ->
  xsalsa20_xor_buffer c m (length m) n k
  = xor_bytes m (take (length m) (xsalsa20_keystream n k (blocks_for (length m)))).
Proof.
  intros Hc. unfold xsalsa20_xor_buffer.
  rewrite take_ge, drop_ge by lia. apply app_nil_r.
Qed.

Lemma xor_buffer_mac_key_at (c m : list Z) (len : nat) (n k : list Z) :
  (32 <= len)%nat -> (len <= length m)%nat -> take 32 m = replicate 32 0 ->
  take 32 (xsalsa20_xor_buffer c m len n k) = mac_key n k.
Proof.
  intros Hlen Hm Hzero. unfold xsalsa20_xor_buffer.
  rewrite take_app_le by (rewrite length_xor_keystream; lia).
  rewrite xor_bytes_take, take_take, take_keystream_mac_key by exact Hlen.
  replace (32 `min` len)%nat with 32%nat by lia. rewrite Hzero.
  rewrite <- (length_mac_key n k) at 1.
  apply xor_bytes_zeros.
  rewrite <- (take_keystream_mac_key n k 32) by lia.
  apply Forall_take, take_keystream_uchar.
Qed.

Section Secretbox_layout.

Variable poly1305_auth : list Z -> list Z -> list Z.
Variable poly1305_auth_verify : list Z -> list Z -> list Z -> Z.

(** X10.  The order of the work.  A seal that passes the length check
    derives the subkey, runs one permutation per started block over the
    whole message and computes the tag last, over the encrypted bytes.  An
    open that verifies has, before that, derived the subkey and run one
    permutation for the MAC key; after the verification it derives the subkey
    a second time and runs one permutation per started block. *)
Theorem secretbox_call_order (out inp : list Z) (len : nat) (n k : list Z) :
  length n = 24%nat -> (32 <= len)%nat ->
  (len <= length out)%nat -> (len <= length inp)%nat ->
  let subkey := snd (value (crypto_core_hsalsa20 (replicate 32 0) n k sigma)) in
  let permutations (blocks : nat) :=
    (fun j => Core_salsa20 (drop 16 n ++ le_bytes 8 (Z.of_nat j)) subkey sigma)
      <$> seq 0 blocks in
  let blocks := if (len mod 64 =? 0)%nat then (len / 64)%nat else S (len / 64) in
  let x := snd (value (xsalsa20_stream_xor out inp len n k)) in
  let key32 := snd (value (xsalsa20_stream (replicate 32 0) 32 n k)) in
  trace (xsalsa20poly1305_secretbox poly1305_auth out inp len n k)
  = Core_hsalsa20 n k sigma :: permutations blocks
    ++ [ Scope_exit "xsalsa20_stream_xor" subkey;
         Poly1305_auth (take (len - 32) (drop 32 x)) (take 32 x) ]
  /\ (poly1305_auth_verify (take 16 (drop 16 inp)) (take (len - 32) (drop 32 inp)) key32
      = 0 ->
      trace (xsalsa20poly1305_secretbox_open poly1305_auth_verify out inp len n k)
      = Core_hsalsa20 n k sigma :: permutations 1%nat
        ++ [ Scope_exit "xsalsa20_stream" subkey;
             Poly1305_auth_verify (take 16 (drop 16 inp))
               (take (len - 32) (drop 32 inp)) key32;
             Core_hsalsa20 n k sigma ]
        ++ permutations blocks
        ++ [ Scope_exit "xsalsa20_stream_xor" subkey;
             Scope_exit "xsalsa20poly1305_secretbox_open" key32 ]).
Proof.
  intros Hn Hlen Hout Hinp subkey permutations blocks x key32.
  assert (Hsub : subkey = hsalsa20_bytes n k sigma)
    by (unfold subkey; rewrite crypto_core_hsalsa20_subkey; reflexivity).
  assert (Hperm : forall q, core_calls (drop 16 n) (hsalsa20_bytes n k sigma) 0 q
                            = permutations q).
  { intros q. unfold permutations, core_calls, block_input.
    rewrite iterate_from_0, Hsub, (take_ge (drop 16 n)) by (rewrite length_drop; lia).
    reflexivity. }
  assert (Hblocks : blocks_for len = blocks) by apply blocks_for_div.
  assert (Hx : x = xsalsa20_xor_buffer out inp len n k)
    by (unfold x; rewrite xsalsa20_stream_xor_buffer by lia; reflexivity).
  assert (Hkey : key32 = mac_key n k)
    by (unfold key32; rewrite xsalsa20_stream_mac_key by lia; reflexivity).
  clearbody subkey permutations blocks x key32. subst subkey x key32.
  split.
  - rewrite secretbox_run by lia. cbn [trace]. unfold xsalsa20_trace.
    rewrite Hblocks, Hperm.
    cbn [app]. repeat rewrite <- app_assoc. cbn [app]. reflexivity.
  - intros Hv. rewrite secretbox_open_accept by (assumption || lia).
    cbn [trace]. unfold xsalsa20_trace.
    assert (H1 : blocks_for 32 = 1%nat) by reflexivity.
    rewrite Hblocks, H1, !Hperm.
    cbn [app]. repeat rewrite <- app_assoc. cbn [app].
    repeat rewrite <- app_assoc. cbn [app]. reflexivity.
Qed.

(** X11.  What a seal writes.  For a message of bytes as long as the
    output buffer, with a tag function that yields 16 bytes, the sealed
    buffer is 16 zero bytes, then the tag, then the message from byte 32 on
    xor'ed with the keystream from byte 32 on; the tag is computed over
    those encrypted bytes with the first 32 bytes of message xor keystream
    as the key. *)
Theorem sealed_layout (c m n k : list Z) :
  (forall body key : list Z, length (poly1305_auth body key) = 16%nat) ->
  length n = 24%nat -> (32 <= length m)%nat -> length c = length m ->
  Forall is_uchar m ->
  let keystream := snd (value (xsalsa20_stream (replicate (length m) 0) (length m) n k)) in
  let body := zip_with Z.lxor (drop 32 m) (drop 32 keystream) in
  let key := zip_with Z.lxor (take 32 m) (take 32 keystream) in
  snd (value (xsalsa20poly1305_secretbox poly1305_auth c m (length m) n k))
  = replicate 16 0 ++ poly1305_auth body key ++ body.
Proof.
  intros Htag Hn Hlen Hc Hm keystream body key.
  assert (HK : keystream = take (length m) (xsalsa20_keystream n k (blocks_for (length m))))
    by (apply xsalsa20_stream_whole; lia).
  pose proof (length_take_keystream n k (length m)) as HKl.
  pose proof (take_keystream_uchar n k (length m)) as HKu.
  rewrite <- HK in HKl, HKu.
  rewrite secretbox_run by lia. cbn [value snd].
  rewrite xsalsa20_xor_buffer_whole, <- HK by exact Hc.
  clearbody keystream. clear HK.
  assert (Hbody : drop 32 (xor_bytes m keystream) = body).
  { unfold body. rewrite xor_bytes_drop.
    apply xor_bytes_lxor; apply Forall_drop; assumption. }
  assert (Hkey : take 32 (xor_bytes m keystream) = key).
  { unfold key. rewrite xor_bytes_take.
    apply xor_bytes_lxor; apply Forall_take; assumption. }
  assert (Hbl : length body = (length m - 32)%nat).
  { rewrite <- Hbody, length_drop, length_xor_bytes; lia. }
  rewrite Hbody, Hkey, (take_ge body) by lia.
  rewrite (lookups_all 16) by apply Htag. reflexivity.
Qed.

(** X12.  What an open that returns 0 writes: 32 zero bytes, then the
    ciphertext from byte 32 on xor'ed with the keystream from byte 32 on. *)
Theorem opened_layout (out c n k : list Z) :
  length n = 24%nat -> (32 <= length c)%nat -> length out = length c ->
  Forall is_uchar c ->
  fst (value (xsalsa20poly1305_secretbox_open poly1305_auth_verify out c (length c) n k))
  = 0 ->
  let keystream := snd (value (xsalsa20_stream (replicate (length c) 0) (length c) n k)) in
  snd (value (xsalsa20poly1305_secretbox_open poly1305_auth_verify out c (length c) n k))
  = replicate 32 0 ++ zip_with Z.lxor (drop 32 c) (drop 32 keystream).
Proof.
  intros Hn Hlen Hout Hc Hret keystream.
  assert (HK : keystream = take (length c) (xsalsa20_keystream n k (blocks_for (length c))))
    by (apply xsalsa20_stream_whole; lia).
  pose proof (take_keystream_uchar n k (length c)) as HKu. rewrite <- HK in HKu.
  destruct (secretbox_open_status poly1305_auth_verify out c (length c) n k
              ltac:(lia) Hret) as [_ Hv].
  rewrite secretbox_open_accept by (assumption || lia). cbn [value snd].
  rewrite xsalsa20_xor_buffer_whole, <- HK by exact Hout.
  clearbody keystream. rewrite xor_bytes_drop. f_equal.
  apply xor_bytes_lxor; apply Forall_drop; assumption.
Qed.

(** X13.  Sealing what an open returned gives the ciphertext back, when
    the ciphertext is made of bytes and starts with 16 zero bytes, the tag
    function yields 16 bytes and the verification accepts no other tag than
    the one the tag function computes. *)
Theorem seal_open (c n k c0 m0 : list Z) :
  (forall body key : list Z, length (poly1305_auth body key) = 16%nat) ->
  (forall mac body key : list Z,
     poly1305_auth_verify mac body key = 0 -> mac = poly1305_auth body key) ->
  length n = 24%nat -> Forall is_uchar c -> (32 <= length c)%nat ->
  take 16 c = replicate 16 0 -> length c0 = length c -> length m0 = length c ->
  fst (value (xsalsa20poly1305_secretbox_open poly1305_auth_verify m0 c (length c) n k))
  = 0 ->
  snd (value (xsalsa20poly1305_secretbox poly1305_auth c0
                (snd (value (xsalsa20poly1305_secretbox_open poly1305_auth_verify
                               m0 c (length c) n k)))
                (length c) n k))
  = c.
Proof.
  intros Htag Hsound Hn Hc Hlen Hzero Hc0 Hm0 Hret.
  destruct (secretbox_open_status poly1305_auth_verify m0 c (length c) n k
              ltac:(lia) Hret) as [_ Hv].
  pose proof (Hsound _ _ _ Hv) as Hmac.
  rewrite (take_ge (drop 32 c)) in Hmac by (rewrite length_drop; lia).
  rewrite secretbox_open_accept by (assumption || lia). cbn [value snd].
  pose proof (drop_xsalsa20_xor_buffer m0 c (length c) n k Hlen ltac:(lia)) as Hp.
  rewrite (take_ge (drop 32 c)), (drop_ge m0), app_nil_r in Hp
    by (rewrite ?length_drop; lia).
  rewrite Hp. clear Hp.
  pose proof (length_take_keystream n k (length c)) as HKl.
  pose proof (take_keystream_uchar n k (length c)) as HKu.
  assert (Hxl : length (xor_bytes (drop 32 c)
                          (drop 32 (take (length c)
                                      (xsalsa20_keystream n k (blocks_for (length c))))))
                = (length c - 32)%nat).
  { rewrite length_xor_bytes; rewrite !length_drop; lia. }
  set (p := replicate 32 0 ++ xor_bytes (drop 32 c)
              (drop 32 (take (length c) (xsalsa20_keystream n k (blocks_for (length c)))))).
  assert (Hpl : length p = length c)
    by (unfold p; rewrite length_app, length_replicate, Hxl; lia).
  assert (Hp32 : take 32 p = replicate 32 0)
    by (unfold p; apply take_app_length'; rewrite length_replicate; reflexivity).
  assert (Hpd : drop 32 p = xor_bytes (drop 32 c)
              (drop 32 (take (length c) (xsalsa20_keystream n k (blocks_for (length c))))))
    by (unfold p; apply drop_app_length'; rewrite length_replicate; reflexivity).
  clearbody p.
  rewrite secretbox_run by lia. cbn [value snd].
  rewrite xor_buffer_mac_key_at by (assumption || lia).
  rewrite drop_xsalsa20_xor_buffer by lia.
  rewrite (take_ge (drop 32 p)), (drop_ge c0), app_nil_r by (rewrite ?length_drop; lia).
  rewrite Hpd, xor_bytes_involutive;
    [|apply Forall_drop; exact Hc|apply Forall_drop; exact HKu|rewrite !length_drop; lia].
  rewrite (take_ge (drop 32 c)) by (rewrite length_drop; lia).
  rewrite <- Hmac.
  rewrite (lookups_all 16) by (rewrite Hmac; apply Htag).
  rewrite <- Hzero. change 32%nat with (16 + 16)%nat.
  rewrite <- (drop_drop c 16 16), take_drop. apply take_drop.
Qed.

End Secretbox_layout.

Lemma secretbox_call_order_witness :
  length Sample.nonce = 24%nat /\ (32 <= 72)%nat
  /\ (72 <= length (replicate 72 0))%nat /\ (72 <= length Sample.message)%nat
  /\ length (trace (xsalsa20poly1305_secretbox Sample.auth (replicate 72 0) Sample.message 72
                      Sample.nonce Sample.key)) = 5%nat.
Proof.
  assert (H1 : (72 <= length (replicate 72 0))%nat) by (vm_compute; lia).
  assert (H2 : (72 <= length Sample.message)%nat) by (vm_compute; lia).
  split; [reflexivity|]. split; [lia|]. split; [exact H1|]. split; [exact H2|].
  rewrite (proj1 (secretbox_call_order Sample.auth Sample.auth_verify (replicate 72 0)
                    Sample.message 72 Sample.nonce Sample.key eq_refl ltac:(lia) H1 H2)).
  reflexivity.
Defined.

Lemma sealed_layout_witness :
  (forall body key : list Z, length (Sample.auth body key) = 16%nat)
  /\ length Sample.nonce = 24%nat /\ (32 <= length Sample.message)%nat
  /\ length (replicate 72 0) = length Sample.message /\ Forall is_uchar Sample.message
  /\ take 16 (snd (value (xsalsa20poly1305_secretbox Sample.auth (replicate 72 0)
                            Sample.message (length Sample.message)
                            Sample.nonce Sample.key)))
     = replicate 16 0.
Proof.
  assert (H1 : (32 <= length Sample.message)%nat) by (vm_compute; lia).
  split; [exact sample_auth_length|]. split; [reflexivity|]. split; [exact H1|].
  split; [reflexivity|]. split; [exact sample_message_uchar|].
  rewrite (sealed_layout Sample.auth (replicate 72 0) Sample.message Sample.nonce Sample.key
             sample_auth_length eq_refl H1 eq_refl sample_message_uchar).
  reflexivity.
Defined.

Lemma sample_sealed_uchar : Forall is_uchar (snd (value (Sample.seal Sample.message))).
Proof.
  apply (bool_decide_unpack (Forall (fun b => 0 <= b < 256) _)). vm_compute. exact I.
Qed.

Lemma sample_sealed_accepted :
  fst (value (xsalsa20poly1305_secretbox_open Sample.auth_verify (replicate 72 255)
                (snd (value (Sample.seal Sample.message)))
                (length (snd (value (Sample.seal Sample.message))))
                Sample.nonce Sample.key)) = 0.
Proof. vm_compute. reflexivity. Qed.

Lemma sample_auth_verify_sound (mac body key : list Z) :
  Sample.auth_verify mac body key = 0 -> mac = Sample.auth body key.
Proof.
  unfold Sample.auth_verify. destruct (decide (mac = Sample.auth body key)) as [H|H];
    [intros _; exact H|discriminate].
Qed.

Lemma opened_layout_witness :
  length Sample.nonce = 24%nat
  /\ (32 <= length (snd (value (Sample.seal Sample.message))))%nat
  /\ length (replicate 72 255) = length (snd (value (Sample.seal Sample.message)))
  /\ Forall is_uchar (snd (value (Sample.seal Sample.message)))
  /\ take 32 (snd (value (xsalsa20poly1305_secretbox_open Sample.auth_verify
                            (replicate 72 255)
                            (snd (value (Sample.seal Sample.message)))
                            (length (snd (value (Sample.seal Sample.message))))
                            Sample.nonce Sample.key)))
     = replicate 32 0.
Proof.
  assert (H1 : (32 <= length (snd (value (Sample.seal Sample.message))))%nat)
    by (vm_compute; lia).
  assert (H2 : length (replicate 72 255) = length (snd (value (Sample.seal Sample.message))))
    by (vm_compute; reflexivity).
  split; [reflexivity|]. split; [exact H1|]. split; [exact H2|].
  split; [exact sample_sealed_uchar|].
  rewrite (opened_layout Sample.auth_verify (replicate 72 255)
             (snd (value (Sample.seal Sample.message))) Sample.nonce Sample.key
             eq_refl H1 H2 sample_sealed_uchar sample_sealed_accepted).
  reflexivity.
Defined.

Lemma seal_open_witness :
  length Sample.nonce = 24%nat
  /\ Forall is_uchar (snd (value (Sample.seal Sample.message)))
  /\ (32 <= length (snd (value (Sample.seal Sample.message))))%nat
  /\ take 16 (snd (value (Sample.seal Sample.message))) = replicate 16 0
  /\ snd (value (xsalsa20poly1305_secretbox Sample.auth (replicate 72 0)
                   (snd (value (xsalsa20poly1305_secretbox_open Sample.auth_verify
                                  (replicate 72 255)
                                  (snd (value (Sample.seal Sample.message)))
                                  (length (snd (value (Sample.seal Sample.message))))
                                  Sample.nonce Sample.key)))
                   (length (snd (value (Sample.seal Sample.message))))
                   Sample.nonce Sample.key))
     = snd (value (Sample.seal Sample.message)).
Proof.
  assert (H1 : (32 <= length (snd (value (Sample.seal Sample.message))))%nat)
    by (vm_compute; lia).
  assert (H2 : take 16 (snd (value (Sample.seal Sample.message))) = replicate 16 0)
    by (vm_compute; reflexivity).
  assert (H3 : length (replicate 72 0) = length (snd (value (Sample.seal Sample.message))))
    by (vm_compute; reflexivity).
  assert (H4 : length (replicate 72 255) = length (snd (value (Sample.seal Sample.message))))
    by (vm_compute; reflexivity).
  split; [reflexivity|]. split; [exact sample_sealed_uchar|]. split; [exact H1|].
  split; [exact H2|].
  exact (seal_open Sample.auth Sample.auth_verify
           (snd (value (Sample.seal Sample.message))) Sample.nonce Sample.key
           (replicate 72 0) (replicate 72 255)
           sample_auth_length sample_auth_verify_sound eq_refl sample_sealed_uchar
           H1 H2 H3 H4 sample_sealed_accepted).
Defined.

(** ** Two more facts about the streams *)

Lemma lxor_cancel_keystream (a : list Z) : forall b K : list Z,
  length a = length K -> length b = length K ->
  zip_with Z.lxor (zip_with Z.lxor a K) (zip_with Z.lxor b K) = zip_with Z.lxor a b.
Proof.
  induction a as [|x a IH]; intros [|y b] [|z K] Ha Hb; try discriminate; [reflexivity|].
  simpl. f_equal.
  - apply Z.bits_inj'. intros i _. rewrite !Z.lxor_spec.
    destruct (Z.testbit x i), (Z.testbit y i), (Z.testbit z i); reflexivity.
  - apply IH; simpl in *; congruence.
Qed.

(** X14.  Two messages of the same length encrypted by
    [xsalsa20_stream_xor] under the same key and nonce: the xor of the two
    outputs is the xor of the two messages, the keystream cancels. *)
Theorem same_nonce_outputs_xor (c1 c2 m1 m2 n k : list Z) :
  length n = 24%nat -> Forall is_uchar m1 -> Forall is_uchar m2 ->
  length m2 = length m1 -> length c1 = length m1 -> length c2 = length m1 ->
  zip_with Z.lxor
    (snd (value (xsalsa20_stream_xor c1 m1 (length m1) n k)))
    (snd (value (xsalsa20_stream_xor c2 m2 (length m1) n k)))
  = zip_with Z.lxor m1 m2.
Proof.
  intros Hn Hm1 Hm2 Hl2 Hc1 Hc2.
  rewrite !xsalsa20_stream_xor_buffer by lia. cbn [value snd].
  rewrite (xsalsa20_xor_buffer_whole c1 m1) by exact Hc1.
  pose proof (xsalsa20_xor_buffer_whole c2 m2 n k ltac:(lia)) as H2.
  rewrite Hl2 in H2. rewrite H2. clear H2.
  pose proof (length_take_keystream n k (length m1)) as HKl.
  pose proof (take_keystream_uchar n k (length m1)) as HKu.
  revert HKl HKu.
  generalize (take (length m1) (xsalsa20_keystream n k (blocks_for (length m1)))) as K.
  intros K HKl HKu.
  rewrite !xor_bytes_lxor by assumption.
  apply lxor_cancel_keystream; lia.
Qed.

Lemma same_nonce_outputs_xor_witness :
  length Sample.nonce = 24%nat /\ Forall is_uchar Sample.message
  /\ Forall is_uchar (replicate 72 65)
  /\ zip_with Z.lxor
       (snd (value (xsalsa20_stream_xor (replicate 72 0) Sample.message
                      (length Sample.message) Sample.nonce Sample.key)))
       (snd (value (xsalsa20_stream_xor (replicate 72 0) (replicate 72 65)
                      (length Sample.message) Sample.nonce Sample.key)))
     = zip_with Z.lxor Sample.message (replicate 72 65).
Proof.
  assert (H65 : Forall is_uchar (replicate 72 65)).
  { apply Forall_replicate. unfold is_uchar. lia. }
  split; [reflexivity|]. split; [exact sample_message_uchar|]. split; [exact H65|].
  exact (same_nonce_outputs_xor (replicate 72 0) (replicate 72 0) Sample.message
           (replicate 72 65) Sample.nonce Sample.key
           eq_refl sample_message_uchar H65 eq_refl eq_refl eq_refl).
Defined.

Lemma le_bytes_mod (n : nat) : forall z : Z,
  le_bytes n (z mod 2 ^ (8 * Z.of_nat n)) = le_bytes n z.
Proof.
  induction n as [|n IH]; intros z; [reflexivity|].
  cbn [le_bytes].
  replace (8 * Z.of_nat (S n)) with (8 + 8 * Z.of_nat n) by lia.
  rewrite Z.pow_add_r by lia. change (2 ^ 8) with 256.
  assert (Hp : 0 < 2 ^ (8 * Z.of_nat n)) by (apply Z.pow_pos_nonneg; lia).
  f_equal.
  - rewrite Z.rem_mul_r by lia.
    rewrite (Z.mul_comm 256), Z.mod_add by lia. apply Z.mod_mod. lia.
  - rewrite <- (IH (z / 256)). f_equal.
    rewrite Z.rem_mul_r by lia.
    rewrite Z.add_comm, (Z.mul_comm 256), Z.div_add_l by lia.
    rewrite (Z.div_small (z mod 256)) by (apply Z.mod_pos_bound; lia).
    apply Z.add_0_r.
Qed.

(** X15.  The block counter is a 64-bit counter: the increment of lines
    230-235 adds one modulo [2^64], the carry out of the last byte being
    dropped, so that a counter of eight bytes 255 is followed by eight bytes
    0; the nonce bytes are not touched. *)
Theorem counter_wraps (n : list Z) (z : Z) :
  length n = 8%nat ->
  increment_counter (n ++ le_bytes 8 z) = n ++ le_bytes 8 ((z + 1) mod 2 ^ 64)
  /\ increment_counter (n ++ replicate 8 255) = n ++ replicate 8 0.
Proof.
  intros Hn.
  assert (Hinc : forall y, increment_counter (n ++ le_bytes 8 y) = n ++ le_bytes 8 (y + 1)).
  { intros y. pose proof (increment_counter_block_input n y ltac:(lia)) as H.
    unfold block_input in H. rewrite (take_ge n) in H by lia. exact H. }
  split.
  - rewrite Hinc. f_equal. symmetry. apply (le_bytes_mod 8).
  - change (replicate 8 255) with (le_bytes 8 (2 ^ 64 - 1)).
    rewrite Hinc. reflexivity.
Qed.

Lemma counter_wraps_witness :
  length (drop 16 Sample.nonce) = 8%nat
  /\ increment_counter (drop 16 Sample.nonce ++ replicate 8 255)
     = drop 16 Sample.nonce ++ replicate 8 0.
Proof.
  split; [reflexivity|].
  exact (proj2 (counter_wraps (drop 16 Sample.nonce) 0 eq_refl)).
Defined.
